(** * upcRhoAnalysis: event tagging, track selection and two-track observables

    A shallow embedding of the selection and reconstruction helpers of
    [PWGUD/Tasks/upcRhoAnalysis.cxx] together with the properties stated
    for them.

    Numeric model.  The task computes with [double] (and [float] columns
    promoted to [double]).  Every such value is modelled as a real number
    and every arithmetic operation and comparison as the exact one, with
    two exceptions whose effect decides a branch of the code: a square
    computed by [std::pow(x, 2)] that underflows is 0, and the bound of the
    dynamic DCA cut is not finite when the transverse momentum is not
    positive.  Other rounding, NaN and infinities are outside this model;
    [Binary64] carries the four-vector sum in the arithmetic of [double]
    itself, for the places where the rounding of a sum matters.  Integer
    columns are [Z].

    Effects.  The only state touched by the modelled code is the histogram
    registry; it is threaded through a state monad as the chronological list
    of [registry.fill] calls. *)

From Stdlib Require Import PrimFloat.
From Stdlib Require Import Reals Lra ZArith Lia List String Bool Permutation.
From ExtLib Require Import Structures.Monad Structures.MonadState.
From ExtLib Require Import Data.Monads.StateMonad.
Import ListNotations.
Import MonadNotation.

Local Open Scope monad_scope.
Local Open Scope R_scope.

(** ** Comparisons on [double] *)

Module Double.

Definition t := R.

(** [a < b] *)
Definition ltb (a b : t) : bool := if Rlt_dec a b then true else false.

(** [a > b] *)
Definition gtb (a b : t) : bool := ltb b a.

(** [a <= b] *)
Definition leb (a b : t) : bool := negb (ltb b a).

(** [a >= b] *)
Definition geb (a b : t) : bool := negb (ltb a b).

(** Half the smallest positive [double]: a positive value that is not
    above it rounds to 0. *)
Definition half_min : R := / 2 ^ 1075.

(** [std::pow(x, 2)]: the square, rounded to 0 when it underflows. *)
Definition pow2 (x : t) : t := if leb (x * x) half_min then 0 else x ^ 2.

(** The values whose square [std::pow(x, 2)] does not round to 0, and 0
    itself. *)
Definition square_kept (x : t) : Prop := x = 0 \/ half_min < x * x.

(** [x > bound] for a bound that may fail to be finite ([None]: +infinity
    or NaN, than which nothing compares greater). *)
Definition exceeds (x : t) (bound : option t) : bool :=
  match bound with
  | Some b => ltb b x
  | None => false
  end.

End Double.

Infix "<?" := Double.ltb (at level 70, no associativity) : R_scope.
Infix ">?" := Double.gtb (at level 70, no associativity) : R_scope.
Infix "<=?" := Double.leb (at level 70, no associativity) : R_scope.
Infix ">=?" := Double.geb (at level 70, no associativity) : R_scope.

(** ** Task configuration

  The data members of [struct upcRhoAnalysis] that the modelled methods
  read: the [Configurable]s and [PcEtaCut]. *)

Record upcRhoAnalysis : Type := {
  PcEtaCut : R;
  specifyGapSide : bool;
  gapSide : Z;
  requireTof : bool;
  collisionsPosZMaxCut : R;
  ZNcommonEnergyCut : R;
  ZNtimeCut : R;
  tracksTpcNSigmaPiCut : R;
  tracksDcaMaxCut : R;
  systemMassMinCut : R;
  systemMassMaxCut : R;
  systemPtCut : R;
  systemYCut : R
}.

(** The values the source gives when nothing is configured. *)
Definition defaults : upcRhoAnalysis := {|
  PcEtaCut := 0.9;
  specifyGapSide := true;
  gapSide := 2;
  requireTof := false;
  collisionsPosZMaxCut := 10.0;
  ZNcommonEnergyCut := 0.0;
  ZNtimeCut := 2.0;
  tracksTpcNSigmaPiCut := 3.0;
  tracksDcaMaxCut := 1.0;
  systemMassMinCut := 0.5;
  systemMassMaxCut := 1.2;
  systemPtCut := 0.1;
  systemYCut := 0.9
|}.

(** ** Collisions and tracks

  The source is generic in the table row types; the records list the
  accessors the modelled code calls. *)

Module Collision.
Record t : Type := {
  posX : R;
  posY : R;
  posZ : R;
  numContrib : Z;
  gapSide : Z;
  energyCommonZNA : R;
  energyCommonZNC : R;
  timeZNA : R;
  timeZNC : R
  }.
End Collision.

Module Track.
Record t : Type := {
  isPVContributor : bool;
  hasITS : bool;
  hasTPC : bool;
  hasTOF : bool;
  px : R;
  py : R;
  pz : R;
  pt : R;
  sign : Z;
  dcaZ : R;
  dcaXY : R;
  tpcNSigmaPi : R;
  tpcNSigmaEl : R;
  tofNSigmaPi : R;
  tpcSignal : R;
  itsNCls : Z;
  itsChi2NCl : R;
  tpcChi2NCl : R;
  tpcNClsFindable : Z;
  tpcNClsCrossedRows : Z
  }.
End Track.

(** ** Histogram registry

    [registry.fill(HIST(name), v1, v2, ...)] is recorded as the histogram
    name with the values passed, in call order. *)

Definition Fill : Type := (string * list R)%type.

Definition HistogramRegistry : Type := list Fill.

Definition registry_fill (name : string) (values : list R)
  : state HistogramRegistry unit :=
  registry <- get ;;
  put (registry ++ [(name, values)]).

Definition hSelectionCounter : string := "QC/tracks/hSelectionCounter"%string.

(** ** Four-vectors *)

(** Modelled from the spec: [std::atan2] of the C++ standard library, the
    azimuthal angle of the point [(x, y)], bounded to the standard range. *)
Definition atan2 (y x : R) : R :=
  if 0 <? x then atan (y / x)
  else if x <? 0 then
    (if y <? 0 then atan (y / x) - PI else atan (y / x) + PI)
  else if 0 <? y then PI / 2
  else if y <? 0 then - (PI / 2)
  else 0.

Module PxPyPzMVector.

(** Modelled from the spec: [ROOT::Math::PxPyPzMVector] (Math/Vector4D.h) is
    a third-party type outside the sources.  A four-vector is stored as the
    three momentum components and the mass; vectors are added and subtracted
    component-wise in [(px, py, pz, E)]; the mass of the result is the
    Lorentz-invariant mass, stored negative when [E^2 < p^2]. *)
Record t : Type := mk { fX : R; fY : R; fZ : R; fM : R }.

(** The default-constructed vector. *)
Definition zero : t := mk 0 0 0 0.

Definition Px (v : t) : R := fX v.
Definition Py (v : t) : R := fY v.
Definition Pz (v : t) : R := fZ v.
Definition M (v : t) : R := fM v.

Definition P2 (v : t) : R := fX v * fX v + fY v * fY v + fZ v * fZ v.

Definition M2 (v : t) : R :=
  if fM v >=? 0 then fM v * fM v else - (fM v * fM v).

Definition E2 (v : t) : R :=
  let e2 := P2 v + M2 v in
  if e2 >? 0 then e2 else 0.

Definition E (v : t) : R := sqrt (E2 v).

Definition Pt (v : t) : R := sqrt (fX v * fX v + fY v * fY v).

Definition Phi (v : t) : R := atan2 (fY v) (fX v).

Definition Rapidity (v : t) : R :=
  let ee := E v in
  let ppz := Pz v in
  0.5 * ln ((ee + ppz) / (ee - ppz)).

(** Store a vector given in [(px, py, pz, E)] coordinates. *)
Definition SetXYZT (x y z e : R) : t :=
  let mm := e * e - x * x - y * y - z * z in
  mk x y z (if mm >=? 0 then sqrt mm else - sqrt (- mm)).

Definition add (v w : t) : t :=
  SetXYZT (Px v + Px w) (Py v + Py w) (Pz v + Pz w) (E v + E w).

Definition sub (v w : t) : t :=
  SetXYZT (Px v - Px w) (Py v - Py w) (Pz v - Pz w) (E v - E w).

End PxPyPzMVector.

Declare Scope vec_scope.
Delimit Scope vec_scope with vec.
Infix "+" := PxPyPzMVector.add : vec_scope.
Infix "-" := PxPyPzMVector.sub : vec_scope.

(** ** The cut functions of the task *)

Section Task.

Variable self : upcRhoAnalysis.

(** [eta(px, py, pz)] of PWGUD/Core/UPCTauCentralBarrelHelperRL.h: the
    pseudorapidity helper is outside the sources and is a parameter. *)
Variable eta : R -> R -> R -> R.

(** [o2::constants::physics::MassPionCharged]. *)
Variable MassPionCharged : R.

Definition collisionPassesCuts (collision : Collision.t) : bool :=
  if Rabs (Collision.posZ collision) >? collisionsPosZMaxCut self then false
  else if specifyGapSide self
          && negb (Collision.gapSide collision =? gapSide self)%Z then false
  else true.

(** The transverse bound of the Run 2 dynamic DCA cut,
    [0.0182 + 0.0350 / std::pow(pt, 1.01)].  For a positive [pt],
    [std::pow(pt, 1.01)] is the real power.  [std::pow(0, 1.01)] is 0, which
    makes the quotient and the bound +infinity, and [std::pow] of a negative
    [pt] is NaN: in both cases the bound is not finite, [None]. *)
Definition dcaXYMax (pt : R) : option R :=
  if 0 <? pt then Some (0.0182 + 0.0350 / Rpower pt 1.01) else None.

Definition trackPassesCuts (track : Track.t)
  : state HistogramRegistry bool :=
  if negb (Track.isPVContributor track) then ret false
  else
    registry_fill hSelectionCounter [1] ;;
    if negb (Track.hasITS track) || negb (Track.hasTPC track) then ret false
    else
      registry_fill hSelectionCounter [2] ;;
      if requireTof self && negb (Track.hasTOF track) then ret false
      else
        registry_fill hSelectionCounter [3] ;;
        if (Rabs (Track.dcaZ track) >? tracksDcaMaxCut self)
           || Double.exceeds (Rabs (Track.dcaXY track))
                             (dcaXYMax (Track.pt track))
        then ret false
        else
          registry_fill hSelectionCounter [4] ;;
          if Rabs (eta (Track.px track) (Track.py track) (Track.pz track))
             >? PcEtaCut self
          then ret false
          else
            registry_fill hSelectionCounter [5] ;;
            ret true.

(** The n-dimensional PID cut. *)
Definition tracksPassPiPID (cutTracks : list Track.t) : bool :=
  let radius :=
    fold_left (fun radius track =>
                 radius + Double.pow2 (Track.tpcNSigmaPi track))
              cutTracks 0.0 in
  radius <? Double.pow2 (tracksTpcNSigmaPiCut self).

Definition tracksTotalCharge (cutTracks : list Track.t) : R :=
  fold_left (fun charge track => charge + IZR (Track.sign track))
            cutTracks 0.0.

Definition systemPassCuts (system : PxPyPzMVector.t) : bool :=
  if (PxPyPzMVector.M system <? systemMassMinCut self)
     || (PxPyPzMVector.M system >? systemMassMaxCut self) then false
  else if PxPyPzMVector.Pt system >? systemPtCut self then false
  else if Rabs (PxPyPzMVector.Rapidity system) >? systemYCut self then false
  else true.

Definition reconstructSystem (cutTracks4Vecs : list PxPyPzMVector.t)
  : PxPyPzMVector.t :=
  fold_left (fun system track4Vec => (system + track4Vec)%vec)
            cutTracks4Vecs PxPyPzMVector.zero.

Definition deltaPhi (p1 p2 : PxPyPzMVector.t) : R :=
  let dPhi := PxPyPzMVector.Phi p1 - PxPyPzMVector.Phi p2 in
  if dPhi >? PI then dPhi - 2 * PI
  else if dPhi <? - PI then dPhi + 2 * PI
  else dPhi.

(** [std::shuffle] driven by a [std::default_random_engine] built from the
    given seed: standard-library code, a parameter. *)
Variable shuffle : Z -> list nat -> list nat.

(** The random-pairing angle.  [seed] is the reading of the system clock;
    indexing past the end of a vector has no defined result and is [None]. *)
Definition getPhiRandom (seed : Z) (cutTracks4Vecs : list PxPyPzMVector.t)
  : option R :=
  let indices := shuffle seed [0%nat; 1%nat] in
  match nth_error indices 0, nth_error indices 1 with
  | Some i0, Some i1 =>
      match nth_error cutTracks4Vecs i0, nth_error cutTracks4Vecs i1 with
      | Some pOne, Some pTwo =>
          let pPlus := (pOne + pTwo)%vec in
          let pMinus := (pOne - pTwo)%vec in
          Some (deltaPhi pPlus pMinus)
      | _, _ => None
      end
  | _, _ => None
  end.

(** The charge-based angle. *)
Definition getPhiCharge (cutTracks : list Track.t)
                        (cutTracks4Vecs : list PxPyPzMVector.t)
  : option R :=
  match nth_error cutTracks 0,
        nth_error cutTracks4Vecs 0, nth_error cutTracks4Vecs 1 with
  | Some track0, Some vec0, Some vec1 =>
      let '(pOne, pTwo) :=
        if (Track.sign track0 >? 0)%Z then (vec0, vec1) else (vec1, vec0) in
      let pPlus := (pOne + pTwo)%vec in
      let pMinus := (pOne - pTwo)%vec in
      Some (deltaPhi pPlus pMinus)
  | _, _, _ => None
  end.

(** The two decay angles computed for a two-track event. *)
Definition decayAngles (seed : Z) (cutTracks : list Track.t)
                       (cutTracks4Vecs : list PxPyPzMVector.t)
  : option R * option R :=
  let phiRandom := getPhiRandom seed cutTracks4Vecs in
  let phiCharge := getPhiCharge cutTracks cutTracks4Vecs in
  (phiRandom, phiCharge).

(** ** Event processing, up to the PID gate *)

(** The four neutron-emission tags ([On] stands for [0n]). *)
Record ZdcTags : Type := {
  XnXn : bool;
  OnOn : bool;
  XnOn : bool;
  OnXn : bool
}.

(** The event tagging block of [processReco]. *)
Definition eventTagging (collision : Collision.t) : ZdcTags :=
  let energyA := Collision.energyCommonZNA collision in
  let energyC := Collision.energyCommonZNC collision in
  let timeA := Collision.timeZNA collision in
  let timeC := Collision.timeZNC collision in
  {| OnOn := (energyA <? ZNcommonEnergyCut self)
             && (energyC <? ZNcommonEnergyCut self);
     XnXn := (energyA >? ZNcommonEnergyCut self)
             && (Rabs timeA <? ZNtimeCut self)
             && (energyC >? ZNcommonEnergyCut self)
             && (Rabs timeC <? ZNtimeCut self);
     XnOn := (energyA >? ZNcommonEnergyCut self)
             && (Rabs timeA <? ZNtimeCut self)
             && (energyC <? ZNcommonEnergyCut self);
     OnXn := (energyA <? ZNcommonEnergyCut self)
             && (energyC >? ZNcommonEnergyCut self)
             && (Rabs timeC <? ZNtimeCut self) |}.

(** What the track loop of [processReco] accumulates. *)
Record Selected : Type := {
  trackCounter : Z;
  cutTracks : list Track.t;
  cutTracks4Vecs : list PxPyPzMVector.t
}.

Fixpoint trackLoop (tracks : list Track.t) (acc : Selected)
  : state HistogramRegistry Selected :=
  match tracks with
  | [] => ret acc
  | track :: rest =>
      registry_fill "QC/tracks/raw/hTpcNSigmaPi" [Track.tpcNSigmaPi track] ;;
      registry_fill "QC/tracks/raw/hTofNSigmaPi" [Track.tofNSigmaPi track] ;;
      registry_fill "QC/tracks/raw/hTpcNSigmaEl" [Track.tpcNSigmaEl track] ;;
      registry_fill "QC/tracks/raw/hDcaXYZ"
                    [Track.dcaZ track; Track.dcaXY track] ;;
      registry_fill "QC/tracks/raw/hItsNCls" [IZR (Track.itsNCls track)] ;;
      registry_fill "QC/tracks/raw/hItsChi2NCl" [Track.itsChi2NCl track] ;;
      registry_fill "QC/tracks/raw/hTpcChi2NCl" [Track.tpcChi2NCl track] ;;
      registry_fill "QC/tracks/raw/hTpcNClsFindable"
                    [IZR (Track.tpcNClsFindable track)] ;;
      registry_fill "QC/tracks/raw/hTpcNClsCrossedRows"
                    [IZR (Track.tpcNClsCrossedRows track)] ;;
      registry_fill hSelectionCounter [0] ;;
      passes <- trackPassesCuts track ;;
      if negb passes then trackLoop rest acc
      else
        registry_fill "QC/tracks/cut/hTpcSignalVsPt"
                      [Track.pt track; Track.tpcSignal track] ;;
        registry_fill "QC/tracks/cut/hDcaXYZ"
                      [Track.dcaZ track; Track.dcaXY track] ;;
        trackLoop rest
          {| trackCounter := trackCounter acc + 1;
             cutTracks := cutTracks acc ++ [track];
             cutTracks4Vecs :=
               cutTracks4Vecs acc
               ++ [PxPyPzMVector.mk (Track.px track) (Track.py track)
                                    (Track.pz track) MassPionCharged] |}
  end.

(** What [processReco] has in hand once an event is past the PID gate. *)
Record Candidate : Type := {
  tags : ZdcTags;
  selected : Selected
}.

(** [processReco] from its first statement to the selection-counter fill
    that follows the PID gate; [None] is an early [return]. *)
Definition processRecoSelection (collision : Collision.t)
                                (tracks : list Track.t)
  : state HistogramRegistry (option Candidate) :=
  registry_fill "QC/collisions/hPosXY"
                [Collision.posX collision; Collision.posY collision] ;;
  registry_fill "QC/collisions/hPosZ" [Collision.posZ collision] ;;
  registry_fill "QC/collisions/hZdcCommonEnergy"
                [Collision.energyCommonZNA collision;
                 Collision.energyCommonZNC collision] ;;
  registry_fill "QC/collisions/hZdcTime"
                [Collision.timeZNA collision; Collision.timeZNC collision] ;;
  registry_fill "QC/collisions/hZnaTimeVsCommonEnergy"
                [Collision.energyCommonZNA collision;
                 Collision.timeZNA collision] ;;
  registry_fill "QC/collisions/hZncTimeVsCommonEnergy"
                [Collision.energyCommonZNC collision;
                 Collision.timeZNC collision] ;;
  registry_fill "QC/collisions/hNumContrib"
                [IZR (Collision.numContrib collision)] ;;
  registry_fill "QC/collisions/hZnaTimeVsPosZ"
                [Collision.posZ collision; Collision.timeZNA collision] ;;
  registry_fill "QC/collisions/hZncTimeVsPosZ"
                [Collision.posZ collision; Collision.timeZNC collision] ;;
  registry_fill "QC/collisions/hPosZVsZnTimeAdd"
                [(Collision.timeZNA collision + Collision.timeZNC collision)
                 / 2; Collision.posZ collision] ;;
  registry_fill "QC/collisions/hPosZVsZnTimeSub"
                [(Collision.timeZNA collision - Collision.timeZNC collision)
                 / 2; Collision.posZ collision] ;;
  if negb (collisionPassesCuts collision) then ret None
  else
    let tags := eventTagging collision in
    sel <- trackLoop tracks {| trackCounter := 0;
                               cutTracks := [];
                               cutTracks4Vecs := [] |} ;;
    registry_fill "QC/tracks/cut/hRemainingTracks"
                  [IZR (trackCounter sel)] ;;
    match cutTracks sel with
    | [track0; track1] =>
        registry_fill "QC/tracks/cut/hTpcNSigmaPi2D"
                      [Track.tpcNSigmaPi track0; Track.tpcNSigmaPi track1] ;;
        registry_fill "QC/tracks/cut/hTpcNSigmaEl2D"
                      [Track.tpcNSigmaEl track0; Track.tpcNSigmaEl track1]
    | _ => ret tt
    end ;;
    if negb (tracksPassPiPID (cutTracks sel)) then ret None
    else
      registry_fill hSelectionCounter [6; 2] ;;
      ret (Some {| tags := tags; selected := sel |}).

End Task.

(** ** The selection stages as the specification lists them *)

(** The five stages of the track selection, in order: PV contributor, ITS
    and TPC hits, TOF when required, DCA, pseudorapidity. *)
Definition stages (self : upcRhoAnalysis) (eta : R -> R -> R -> R)
  : list (Track.t -> bool) :=
  [ Track.isPVContributor;
    (fun track => Track.hasITS track && Track.hasTPC track);
    (fun track => negb (requireTof self) || Track.hasTOF track);
    (fun track =>
       (Rabs (Track.dcaZ track) <=? tracksDcaMaxCut self)
       && negb (Double.exceeds (Rabs (Track.dcaXY track))
                               (dcaXYMax (Track.pt track))));
    (fun track =>
       Rabs (eta (Track.px track) (Track.py track) (Track.pz track))
       <=? PcEtaCut self) ].

(** How many stages a track passes before the first one it fails. *)
Fixpoint stagesPassed (l : list (Track.t -> bool)) (track : Track.t) : nat :=
  match l with
  | [] => 0
  | stage :: rest => if stage track then S (stagesPassed rest track) else 0
  end.

(** The selection-counter fills of bins [1 .. n], in order. *)
Definition counterFills (n : nat) : HistogramRegistry :=
  map (fun k => (hSelectionCounter, [IZR (Z.of_nat k)])) (seq 1 n).

(** How many fills of the selection counter a registry holds. *)
Definition selectionCounterFills (registry : HistogramRegistry) : nat :=
  List.length (filter (fun f => String.eqb (fst f) hSelectionCounter) registry).

(** The sum of the squared pion n-sigma values of a set of tracks, each
    square as [std::pow] gives it. *)
Definition sumNSigmaPiSquared (tracks : list Track.t) : R :=
  fold_right (fun track acc => Double.pow2 (Track.tpcNSigmaPi track) + acc)
             0 tracks.

(** How many of the four tags are set. *)
Definition tagCount (tags : ZdcTags) : nat :=
  (Nat.b2n (OnOn tags) + Nat.b2n (XnOn tags)
   + Nat.b2n (OnXn tags) + Nat.b2n (XnXn tags))%nat.

(** Modelled from the spec: the pseudorapidity helper [eta] of
    PWGUD/Core/UPCTauCentralBarrelHelperRL.h is outside the sources; it is
    the pseudorapidity computed from the full 3-momentum, [atanh (pz / |p|)],
    with the helper's out-of-range value when the ratio is not inside
    [(-1, 1)]. *)
Definition pseudorapidity (px py pz : R) : R :=
  let mom := sqrt (px * px + py * py + pz * pz) in
  let arg := if (mom <? 0) || (mom >? 0) then pz / mom else -2 in
  if (-1 <? arg) && (arg <? 1)
  then / 2 * ln ((1 + arg) / (1 - arg))
  else -999.

(** ** Concrete inputs

    A collision, a track and a pion four-vector on which the definitions
    are run. *)
Definition sampleCollision (energyA timeA energyC timeC : R) : Collision.t :=
  {| Collision.posX := 0; Collision.posY := 0; Collision.posZ := 0;
     Collision.numContrib := 2; Collision.gapSide := 2;
     Collision.energyCommonZNA := energyA;
     Collision.energyCommonZNC := energyC;
     Collision.timeZNA := timeA; Collision.timeZNC := timeC |}.

Definition sampleTrack (sign : Z) (px py pz nSigmaPi : R) : Track.t :=
  {| Track.isPVContributor := true; Track.hasITS := true;
     Track.hasTPC := true; Track.hasTOF := false;
     Track.px := px; Track.py := py; Track.pz := pz;
     Track.pt := sqrt (px * px + py * py);
     Track.sign := sign; Track.dcaZ := 0; Track.dcaXY := 0;
     Track.tpcNSigmaPi := nSigmaPi; Track.tpcNSigmaEl := 0;
     Track.tofNSigmaPi := 0; Track.tpcSignal := 0;
     Track.itsNCls := 7; Track.itsChi2NCl := 1; Track.tpcChi2NCl := 1;
     Track.tpcNClsFindable := 150; Track.tpcNClsCrossedRows := 150 |}.

(** A collision whose vertex lies outside the default z range. *)
Definition farCollision : Collision.t :=
  {| Collision.posX := 0; Collision.posY := 0; Collision.posZ := 11;
     Collision.numContrib := 2; Collision.gapSide := 2;
     Collision.energyCommonZNA := 0; Collision.energyCommonZNC := 0;
     Collision.timeZNA := 0; Collision.timeZNC := 0 |}.

(** The configuration with another sigma cut. *)
Definition withTpcNSigmaPiCut (cut : R) (self : upcRhoAnalysis)
  : upcRhoAnalysis :=
  {| PcEtaCut := PcEtaCut self;
     specifyGapSide := specifyGapSide self;
     gapSide := gapSide self;
     requireTof := requireTof self;
     collisionsPosZMaxCut := collisionsPosZMaxCut self;
     ZNcommonEnergyCut := ZNcommonEnergyCut self;
     ZNtimeCut := ZNtimeCut self;
     tracksTpcNSigmaPiCut := cut;
     tracksDcaMaxCut := tracksDcaMaxCut self;
     systemMassMinCut := systemMassMinCut self;
     systemMassMaxCut := systemMassMaxCut self;
     systemPtCut := systemPtCut self;
     systemYCut := systemYCut self |}.

(** A track of transverse momentum [pt] displaced from the vertex by
    [dcaXY] in the transverse plane. *)
Definition displacedTrack (pt dcaXY : R) : Track.t :=
  {| Track.isPVContributor := true; Track.hasITS := true;
     Track.hasTPC := true; Track.hasTOF := false;
     Track.px := pt; Track.py := 0; Track.pz := 0; Track.pt := pt;
     Track.sign := 1; Track.dcaZ := 0; Track.dcaXY := dcaXY;
     Track.tpcNSigmaPi := 0; Track.tpcNSigmaEl := 0;
     Track.tofNSigmaPi := 0; Track.tpcSignal := 0;
     Track.itsNCls := 7; Track.itsChi2NCl := 1; Track.tpcChi2NCl := 1;
     Track.tpcNClsFindable := 150; Track.tpcNClsCrossedRows := 150 |}.

(** A track that is not a primary-vertex contributor. *)
Definition secondaryTrack : Track.t :=
  {| Track.isPVContributor := false; Track.hasITS := true;
     Track.hasTPC := true; Track.hasTOF := false;
     Track.px := 1; Track.py := 0; Track.pz := 0; Track.pt := 1;
     Track.sign := 1; Track.dcaZ := 0; Track.dcaXY := 0;
     Track.tpcNSigmaPi := 0; Track.tpcNSigmaEl := 0;
     Track.tofNSigmaPi := 0; Track.tpcSignal := 0;
     Track.itsNCls := 7; Track.itsChi2NCl := 1; Track.tpcChi2NCl := 1;
     Track.tpcNClsFindable := 150; Track.tpcNClsCrossedRows := 150 |}.

Definition samplePion (px py pz : R) : PxPyPzMVector.t :=
  PxPyPzMVector.mk px py pz 0.13957.

(** ** Component sums of a list of four-vectors *)

Definition sumOf (f : PxPyPzMVector.t -> R) (l : list PxPyPzMVector.t) : R :=
  fold_right (fun v acc => f v + acc) 0 l.

(** The vector with the summed momentum components and the summed
    energies. *)
Definition vectorSum (l : list PxPyPzMVector.t) : PxPyPzMVector.t :=
  PxPyPzMVector.SetXYZT (sumOf PxPyPzMVector.Px l) (sumOf PxPyPzMVector.Py l)
                        (sumOf PxPyPzMVector.Pz l) (sumOf PxPyPzMVector.E l).

(** ** The four-vector sum in the arithmetic of [double]

    [PxPyPzMVector] and [reconstructSystem] once more, every operation
    being the binary64 one (round to nearest, ties to even) of the kernel's
    primitive floats. *)

Module Binary64.

Module PxPyPzMVector.

(** Modelled from the spec: [ROOT::Math::PxPyPzMVector] as above, its
    coordinates of type [double]. *)
Record t : Type := mk { fX : float; fY : float; fZ : float; fM : float }.

Definition zero : t := mk 0 0 0 0.

Definition M (v : t) : float := fM v.

Definition P2 (v : t) : float :=
  (fX v * fX v + fY v * fY v + fZ v * fZ v)%float.

Definition M2 (v : t) : float :=
  if (0 <=? fM v)%float then (fM v * fM v)%float
  else (- (fM v * fM v))%float.

Definition E2 (v : t) : float :=
  let e2 := (P2 v + M2 v)%float in
  if (0 <? e2)%float then e2 else 0%float.

Definition E (v : t) : float := PrimFloat.sqrt (E2 v).

Definition Pt (v : t) : float :=
  PrimFloat.sqrt (fX v * fX v + fY v * fY v)%float.

Definition SetXYZT (x y z e : float) : t :=
  let mm := (e * e - x * x - y * y - z * z)%float in
  mk x y z (if (0 <=? mm)%float then PrimFloat.sqrt mm
            else (- PrimFloat.sqrt (- mm))%float).

Definition add (v w : t) : t :=
  SetXYZT (fX v + fX w)%float (fY v + fY w)%float (fZ v + fZ w)%float
          (E v + E w)%float.

End PxPyPzMVector.

Definition reconstructSystem (cutTracks4Vecs : list PxPyPzMVector.t)
  : PxPyPzMVector.t :=
  fold_left (fun system track4Vec => PxPyPzMVector.add system track4Vec)
            cutTracks4Vecs PxPyPzMVector.zero.

(** Three four-vectors of mass 0.125. *)
Definition vecA : PxPyPzMVector.t := PxPyPzMVector.mk 0.5 0.25 0.125 0.125.
Definition vecB : PxPyPzMVector.t :=
  PxPyPzMVector.mk (-0.375) 0.5 0.25 0.125.
Definition vecC : PxPyPzMVector.t :=
  PxPyPzMVector.mk 0.125 (-0.625) 0.75 0.125.

End Binary64.

(** ** Event processing, past the PID gate *)

(** [a == b] *)
Definition Req_bool (a b : R) : bool := if Req_dec_T a b then true else false.

(** Conversion of a [double] to [int]: truncation toward zero. *)
Definition double_to_int (x : R) : Z :=
  if x <? 0 then (- Int_part (- x))%Z else Int_part x.

Local Open Scope string_scope.

(** A histogram name from its path components. *)
Definition histName (path : list string) : string := String.concat "/" path.

(** The values [processReco] keeps of the reconstructed system. *)
Record SystemValues : Type := {
  mass : R;
  pT : R;
  pTsquare : R;
  rapidity : R
}.

Section Reconstruction.

Variable self : upcRhoAnalysis.
Variable eta : R -> R -> R -> R.
Variable MassPionCharged : R.
Variable shuffle : Z -> list nat -> list nat.

(** [Eta()] of [ROOT::Math::PxPyPzMVector], a parameter: its value only
    travels into fills. *)
Variable Eta : PxPyPzMVector.t -> R.

(** The three fills of a [pions/...] family; [selection] is ["no-selection"]
    or ["selected"], [signs] is ["unlike-sign"] or ["like-sign"]. *)
Definition fillPions (selection signs : string)
                     (vec0 vec1 : PxPyPzMVector.t)
  : state HistogramRegistry unit :=
  registry_fill (histName ["pions"; selection; signs; "hPt"])
                [PxPyPzMVector.Pt vec0; PxPyPzMVector.Pt vec1] ;;
  registry_fill (histName ["pions"; selection; signs; "hEta"])
                [Eta vec0; Eta vec1] ;;
  registry_fill (histName ["pions"; selection; signs; "hPhi"])
                [PxPyPzMVector.Phi vec0 + PI; PxPyPzMVector.Phi vec1 + PI].

(** The four fills of a [system/2pi/raw/...] family; [signs] is
    ["unlike-sign"], ["like-sign/positive"] or ["like-sign/negative"]. *)
Definition fillRaw (signs : string) (v : SystemValues)
  : state HistogramRegistry unit :=
  registry_fill (histName ["system"; "2pi"; "raw"; signs; "hM"]) [mass v] ;;
  registry_fill (histName ["system"; "2pi"; "raw"; signs; "hPt"]) [pT v] ;;
  registry_fill (histName ["system"; "2pi"; "raw"; signs; "hPtVsM"])
                [mass v; pT v] ;;
  registry_fill (histName ["system"; "2pi"; "raw"; signs; "hY"])
                [rapidity v].

(** The twelve fills of a [system/2pi/cut/...] family; [zdc] is
    ["no-selection"] or one of the four neutron classes. *)
Definition fillCut (zdc signs : string) (v : SystemValues)
                   (phiRandom phiCharge : R)
  : state HistogramRegistry unit :=
  let name := fun h => histName ["system"; "2pi"; "cut"; zdc; signs; h] in
  registry_fill (name "hM") [mass v] ;;
  registry_fill (name "hPt") [pT v] ;;
  registry_fill (name "hPt2") [pTsquare v] ;;
  registry_fill (name "hPtVsM") [mass v; pT v] ;;
  registry_fill (name "hY") [rapidity v] ;;
  registry_fill (name "hPhiRandom") [phiRandom] ;;
  registry_fill (name "hPhiCharge") [phiCharge] ;;
  registry_fill (name "hPhiRandomVsM") [mass v; phiRandom] ;;
  registry_fill (name "hPhiChargeVsM") [mass v; phiCharge] ;;
  registry_fill (name "hPyVsPxRandom")
                [pT v * cos phiRandom; pT v * sin phiRandom] ;;
  registry_fill (name "hPyVsPxCharge")
                [pT v * cos phiCharge; pT v * sin phiCharge] ;;
  registry_fill (name "hMInPtQuantileBins") [mass v; pT v].

(** The [if (OnOn) ... else if (XnOn) ... else if (OnXn) ... else if (XnXn)]
    chain that follows each [no-selection] family. *)
Definition fillTagged (tags : ZdcTags) (signs : string) (v : SystemValues)
                      (phiRandom phiCharge : R)
  : state HistogramRegistry unit :=
  if OnOn tags then fillCut "0n0n" signs v phiRandom phiCharge
  else if XnOn tags then fillCut "Xn0n" signs v phiRandom phiCharge
  else if OnXn tags then fillCut "0nXn" signs v phiRandom phiCharge
  else if XnXn tags then fillCut "XnXn" signs v phiRandom phiCharge
  else ret tt.

(** The four fills of the [system/4pi] and [system/6pi] families. *)
Definition fillMultiPion (family : string) (v : SystemValues)
  : state HistogramRegistry unit :=
  registry_fill (histName ["system"; family; "hM"]) [mass v] ;;
  registry_fill (histName ["system"; family; "hPt"]) [pT v] ;;
  registry_fill (histName ["system"; family; "hPtVsM"]) [mass v; pT v] ;;
  registry_fill (histName ["system"; family; "hY"]) [rapidity v].

(** [processReco] from the reconstruction of the system to its end.  Reading
    a vector past its end has no defined result; the embedding fills nothing
    there. *)
Definition processRecoSystem (seed : Z) (candidate : Candidate)
  : state HistogramRegistry unit :=
  let eventTags := tags candidate in
  let cutTracks := cutTracks (selected candidate) in
  let cutTracks4Vecs := cutTracks4Vecs (selected candidate) in
  let system := reconstructSystem cutTracks4Vecs in
  let totalCharge := double_to_int (tracksTotalCharge cutTracks) in
  let nTracks := Z.of_nat (List.length cutTracks) in
  let v := {| mass := PxPyPzMVector.M system;
              pT := PxPyPzMVector.Pt system;
              pTsquare := PxPyPzMVector.Pt system * PxPyPzMVector.Pt system;
              rapidity := PxPyPzMVector.Rapidity system |} in
  if (nTracks =? 2)%Z then
    match getPhiRandom shuffle seed cutTracks4Vecs,
          getPhiCharge cutTracks cutTracks4Vecs,
          nth_error cutTracks4Vecs 0, nth_error cutTracks4Vecs 1 with
    | Some phiRandom, Some phiCharge, Some vec0, Some vec1 =>
        match totalCharge with
        | 0%Z =>
            fillPions "no-selection" "unlike-sign" vec0 vec1 ;;
            fillRaw "unlike-sign" v
        | 2%Z =>
            fillPions "no-selection" "like-sign" vec0 vec1 ;;
            fillRaw "like-sign/positive" v
        | (-2)%Z =>
            fillPions "no-selection" "like-sign" vec0 vec1 ;;
            fillRaw "like-sign/negative" v
        | _ => ret tt
        end ;;
        if negb (systemPassCuts self system) then ret tt
        else
          match totalCharge with
          | 0%Z =>
              fillPions "selected" "unlike-sign" vec0 vec1 ;;
              fillCut "no-selection" "unlike-sign" v phiRandom phiCharge ;;
              fillTagged eventTags "unlike-sign"
                         v phiRandom phiCharge
          | 2%Z =>
              fillPions "selected" "like-sign" vec0 vec1 ;;
              fillCut "no-selection" "like-sign/positive"
                      v phiRandom phiCharge ;;
              fillTagged eventTags "like-sign/positive"
                         v phiRandom phiCharge
          | (-2)%Z =>
              fillPions "selected" "like-sign" vec0 vec1 ;;
              fillCut "no-selection" "like-sign/negative"
                      v phiRandom phiCharge ;;
              fillTagged eventTags "like-sign/negative"
                         v phiRandom phiCharge
          | _ => ret tt
          end
    | _, _, _, _ => ret tt
    end
  else if (nTracks =? 4)%Z && Req_bool (tracksTotalCharge cutTracks) 0
  then fillMultiPion "4pi" v
  else if (nTracks =? 6)%Z && Req_bool (tracksTotalCharge cutTracks) 0
  then fillMultiPion "6pi" v
  else ret tt.

(** The whole of [processReco]; [seed] is the clock reading taken by
    [getPhiRandom]. *)
Definition processReco (seed : Z) (collision : Collision.t)
                       (tracks : list Track.t)
  : state HistogramRegistry unit :=
  candidate <- processRecoSelection self eta MassPionCharged
                                    collision tracks ;;
  match candidate with
  | None => ret tt
  | Some candidate => processRecoSystem seed candidate
  end.

End Reconstruction.

Local Close Scope string_scope.

(** ** What a computation adds to the registry *)

(** The fills a computation makes, started on an empty registry. *)
Definition fillsOf {A : Type} (c : state HistogramRegistry A)
  : HistogramRegistry :=
  snd (runState c []).

(** A computation only appends to the registry: started on any registry it
    returns what it returns on the empty one and leaves the registry
    followed by the fills it makes on the empty one. *)
Definition Appends {A : Type} (c : state HistogramRegistry A) : Prop :=
  forall registry : HistogramRegistry,
    runState c registry = (fst (runState c []), registry ++ fillsOf c).

(** The histogram names of a list of fills. *)
Definition histNames (registry : HistogramRegistry) : list string :=
  map fst registry.

(** Whether some fill of the registry goes to a histogram whose name starts
    with the given path. *)
Definition fillsUnder (path : string) (registry : HistogramRegistry) : bool :=
  existsb (fun f => String.prefix path (fst f)) registry.

(** The tracks that pass all five stages of [trackPassesCuts]. *)
Definition passesAllStages (self : upcRhoAnalysis) (eta : R -> R -> R -> R)
                           (track : Track.t) : bool :=
  Nat.eqb (stagesPassed (stages self eta) track) 5.

(** The sum of the charge signs of a list of tracks. *)
Definition sumOfSigns (tracks : list Track.t) : Z :=
  fold_right (fun track acc => (Track.sign track + acc)%Z) 0%Z tracks.

(** ** The track loop as a function of its input *)

(** The four-vector [processReco] builds for a selected track. *)
Definition pionVector (MassPionCharged : R) (track : Track.t)
  : PxPyPzMVector.t :=
  PxPyPzMVector.mk (Track.px track) (Track.py track) (Track.pz track)
                   MassPionCharged.

(** The accumulator of the track loop after [kept] more tracks are
    selected. *)
Definition selectMore (MassPionCharged : R) (acc : Selected)
                      (kept : list Track.t) : Selected :=
  {| trackCounter := trackCounter acc + Z.of_nat (List.length kept);
     cutTracks := cutTracks acc ++ kept;
     cutTracks4Vecs :=
       cutTracks4Vecs acc ++ map (pionVector MassPionCharged) kept |}.

(** The fills one iteration of the track loop makes for a track. *)
Definition trackFills (self : upcRhoAnalysis) (eta : R -> R -> R -> R)
                      (track : Track.t) : HistogramRegistry :=
  [ ("QC/tracks/raw/hTpcNSigmaPi"%string, [Track.tpcNSigmaPi track]);
    ("QC/tracks/raw/hTofNSigmaPi"%string, [Track.tofNSigmaPi track]);
    ("QC/tracks/raw/hTpcNSigmaEl"%string, [Track.tpcNSigmaEl track]);
    ("QC/tracks/raw/hDcaXYZ"%string, [Track.dcaZ track; Track.dcaXY track]);
    ("QC/tracks/raw/hItsNCls"%string, [IZR (Track.itsNCls track)]);
    ("QC/tracks/raw/hItsChi2NCl"%string, [Track.itsChi2NCl track]);
    ("QC/tracks/raw/hTpcChi2NCl"%string, [Track.tpcChi2NCl track]);
    ("QC/tracks/raw/hTpcNClsFindable"%string,
     [IZR (Track.tpcNClsFindable track)]);
    ("QC/tracks/raw/hTpcNClsCrossedRows"%string,
     [IZR (Track.tpcNClsCrossedRows track)]);
    (hSelectionCounter, [0]) ]
  ++ counterFills (stagesPassed (stages self eta) track)
  ++ (if passesAllStages self eta track
      then [ ("QC/tracks/cut/hTpcSignalVsPt"%string,
              [Track.pt track; Track.tpcSignal track]);
             ("QC/tracks/cut/hDcaXYZ"%string,
              [Track.dcaZ track; Track.dcaXY track]) ]
      else []).

(** How many fills of the selection counter go to bin [k]. *)
Definition binCount (k : Z) (registry : HistogramRegistry) : nat :=
  List.length
    (filter (fun f =>
               String.eqb (fst f) hSelectionCounter
               && match snd f with
                  | x :: _ => Req_bool x (IZR k)
                  | [] => false
                  end)
            registry).

(** How many tracks pass at least the first [k] stages. *)
Definition reachStage (self : upcRhoAnalysis) (eta : R -> R -> R -> R)
                      (k : nat) (tracks : list Track.t) : nat :=
  List.length
    (filter (fun track => Nat.leb k (stagesPassed (stages self eta) track))
            tracks).

(** ** Reading the fills of an event *)

(** Whether [sub] occurs in [name]. *)
Definition contains (sub name : string) : bool :=
  match String.index 0 sub name with
  | Some _ => true
  | None => false
  end.

(** Whether some fill goes to a histogram whose name contains [sub]. *)
Definition fillsWith (sub : string) (registry : HistogramRegistry) : bool :=
  existsb (fun f => contains sub (fst f)) registry.

(** A candidate of two selected tracks with their four-vectors. *)
Definition pairCandidate (eventTags : ZdcTags) (t0 t1 : Track.t)
                         (vec0 vec1 : PxPyPzMVector.t) : Candidate :=
  {| tags := eventTags;
     selected := {| trackCounter := 2;
                    cutTracks := [t0; t1];
                    cutTracks4Vecs := [vec0; vec1] |} |}.

(** ** The fills of the selection part *)

(** The eleven collision QC fills [processReco] starts with. *)
Definition collisionFills (collision : Collision.t) : HistogramRegistry :=
  [ ("QC/collisions/hPosXY"%string,
     [Collision.posX collision; Collision.posY collision]);
    ("QC/collisions/hPosZ"%string, [Collision.posZ collision]);
    ("QC/collisions/hZdcCommonEnergy"%string,
     [Collision.energyCommonZNA collision;
      Collision.energyCommonZNC collision]);
    ("QC/collisions/hZdcTime"%string,
     [Collision.timeZNA collision; Collision.timeZNC collision]);
    ("QC/collisions/hZnaTimeVsCommonEnergy"%string,
     [Collision.energyCommonZNA collision; Collision.timeZNA collision]);
    ("QC/collisions/hZncTimeVsCommonEnergy"%string,
     [Collision.energyCommonZNC collision; Collision.timeZNC collision]);
    ("QC/collisions/hNumContrib"%string,
     [IZR (Collision.numContrib collision)]);
    ("QC/collisions/hZnaTimeVsPosZ"%string,
     [Collision.posZ collision; Collision.timeZNA collision]);
    ("QC/collisions/hZncTimeVsPosZ"%string,
     [Collision.posZ collision; Collision.timeZNC collision]);
    ("QC/collisions/hPosZVsZnTimeAdd"%string,
     [(Collision.timeZNA collision + Collision.timeZNC collision) / 2;
      Collision.posZ collision]);
    ("QC/collisions/hPosZVsZnTimeSub"%string,
     [(Collision.timeZNA collision - Collision.timeZNC collision) / 2;
      Collision.posZ collision]) ].

(** The two-dimensional PID fills made when exactly two tracks are
    selected. *)
Definition pairPidFills (kept : list Track.t) : HistogramRegistry :=
  match kept with
  | [track0; track1] =>
      [ ("QC/tracks/cut/hTpcNSigmaPi2D"%string,
         [Track.tpcNSigmaPi track0; Track.tpcNSigmaPi track1]);
        ("QC/tracks/cut/hTpcNSigmaEl2D"%string,
         [Track.tpcNSigmaEl track0; Track.tpcNSigmaEl track1]) ]
  | _ => []
  end.

(** Every fill of a computation goes to a histogram whose name satisfies
    [p], and the computation only appends. *)
Definition FillsOnly {A : Type} (p : string -> bool)
                     (c : state HistogramRegistry A) : Prop :=
  Appends c /\ forallb (fun f => p (fst f)) (fillsOf c) = true.

(** Names of the histograms filled past the PID gate. *)
Definition pastGate (name : string) : bool :=
  String.prefix "system/" name || String.prefix "pions/" name.

(** * The V0 selections of [myAnalysis]

    The event and V0 candidate selections of
    [PWGLF/Tasks/Strangeness/lambdaJetpolarization.cxx]. *)

Module MyAnalysis.

(** The [Configurable]s the modelled methods read. *)
Record myAnalysis : Type := {
  v0cospa : R;
  dcanegtopv : R;
  dcapostopv : R;
  requireITS : bool;
  requireTOF : bool;
  requireTPC : bool;
  requirepassedSingleTrackSelection : bool;
  minITSnCls : R;
  minTPCnClsFound : R;
  minNCrossedRowsTPC : R;
  maxChi2TPC : R;
  etaMin : R;
  etaMax : R;
  minimumV0Radius : R;
  nsigmaTPCmin : R;
  nsigmaTPCmax : R;
  nsigmaTOFmin : R;
  nsigmaTOFmax : R;
  yMin : R;
  yMax : R;
  cutzvertex : R;
  sel8 : bool;
  isTriggerTVX : bool;
  iscutzvertex : bool;
  isNoTimeFrameBorder : bool;
  isNoITSROFrameBorder : bool;
  isVertexTOFmatched : bool;
  isGoodZvtxFT0vsPV : bool;
  dcav0dau : R
}.

(** The values the source gives when nothing is configured. *)
Definition defaults : myAnalysis := {|
  v0cospa := 0.995;
  dcanegtopv := 0.05;
  dcapostopv := 0.05;
  requireITS := false;
  requireTOF := false;
  requireTPC := false;
  requirepassedSingleTrackSelection := false;
  minITSnCls := 4.0;
  minTPCnClsFound := 80.0;
  minNCrossedRowsTPC := 80.0;
  maxChi2TPC := 4.0;
  etaMin := -0.8;
  etaMax := 0.8;
  minimumV0Radius := 0.4;
  nsigmaTPCmin := -3.0;
  nsigmaTPCmax := 3.0;
  nsigmaTOFmin := -3.0;
  nsigmaTOFmax := 3.0;
  yMin := -0.5;
  yMax := 0.5;
  cutzvertex := 10.0;
  sel8 := false;
  isTriggerTVX := false;
  iscutzvertex := false;
  isNoTimeFrameBorder := false;
  isNoITSROFrameBorder := false;
  isVertexTOFmatched := true;
  isGoodZvtxFT0vsPV := true;
  dcav0dau := 1.0
|}.

(** The event-selection bits [AcceptEvent] asks for. *)
Inductive EventSelectionFlag : Type :=
| kIsTriggerTVX
| kNoTimeFrameBorder
| kNoITSROFrameBorder
| kIsVertexTOFmatched
| kIsGoodZvtxFT0vsPV.

Module Collision.
Record t : Type := {
  sel8 : bool;
  selection_bit : EventSelectionFlag -> bool;
  posZ : R
}.
End Collision.

Module Track.
Record t : Type := {
  hasITS : bool;
  hasTPC : bool;
  hasTOF : bool;
  itsNCls : Z;
  tpcNClsFound : Z;
  tpcNClsCrossedRows : Z;
  tpcChi2NCl : R;
  eta : R;
  tpcNSigmaPi : R;
  tpcNSigmaPr : R;
  tofNSigmaPi : R;
  tofNSigmaPr : R
}.
End Track.

Module V0.
Record t : Type := {
  v0radius : R;
  v0cosPA : R;
  dcapostopv : R;
  dcanegtopv : R;
  dcaV0daughters : R;
  px : R;
  py : R;
  pz : R
}.
End V0.

Section Selections.

Variable self : myAnalysis.

(** [TLorentzVector::SetXYZM] followed by [Rapidity()], of ROOT: the
    rapidity of the momentum [(px, py, pz)] under the mass [m]; a
    parameter. *)
Variable RapidityXYZM : R -> R -> R -> R -> R.

Definition passedSingleTrackSelection (track : Track.t) : bool :=
  if requireITS self && negb (Track.hasITS track) then false
  else if requireITS self && (IZR (Track.itsNCls track) <? minITSnCls self)
  then false
  else if negb (Track.hasTPC track) then false
  else if IZR (Track.tpcNClsFound track) <? minTPCnClsFound self then false
  else if IZR (Track.tpcNClsCrossedRows track) <? minNCrossedRowsTPC self
  then false
  else if Track.tpcChi2NCl track >? maxChi2TPC self then false
  else if (Track.eta track <? etaMin self) || (Track.eta track >? etaMax self)
  then false
  else if requireTOF self && negb (Track.hasTOF track) then false
  else true.

Definition passedLambdaSelection (v0 : V0.t) (ptrack ntrack : Track.t)
  : bool :=
  if requirepassedSingleTrackSelection self
     && negb (passedSingleTrackSelection ptrack) then false
  else if requirepassedSingleTrackSelection self
          && negb (passedSingleTrackSelection ntrack) then false
  else if requireTOF self
          && ((Track.tofNSigmaPr ptrack <? nsigmaTOFmin self)
              || (Track.tofNSigmaPr ptrack >? nsigmaTOFmax self)) then false
  else if requireTOF self
          && ((Track.tofNSigmaPi ntrack <? nsigmaTOFmin self)
              || (Track.tofNSigmaPi ntrack >? nsigmaTOFmax self)) then false
  else if (V0.v0radius v0 <? minimumV0Radius self)
          || (V0.v0cosPA v0 <? v0cospa self)
          || (Rabs (Track.eta ptrack) >? etaMax self)
          || (Rabs (Track.eta ntrack) >? etaMax self) then false
  else if Rabs (V0.dcapostopv v0) <? dcanegtopv self then false
  else if Rabs (V0.dcapostopv v0) <? dcapostopv self then false
  else if V0.dcaV0daughters v0 >? dcav0dau self then false
  else if requireTPC self
          && ((Track.tpcNSigmaPr ptrack <? nsigmaTPCmin self)
              || (Track.tpcNSigmaPr ptrack >? nsigmaTPCmax self)) then false
  else if requireTPC self
          && ((Track.tpcNSigmaPi ntrack <? nsigmaTPCmin self)
              || (Track.tpcNSigmaPi ntrack >? nsigmaTPCmax self)) then false
  else
    let rapidity :=
      RapidityXYZM (V0.px v0) (V0.py v0) (V0.pz v0) 1.115683 in
    if (rapidity <? yMin self) || (rapidity >? yMax self) then false
    else true.

Definition passedAntiLambdaSelection (v0 : V0.t) (ptrack ntrack : Track.t)
  : bool :=
  if requirepassedSingleTrackSelection self
     && negb (passedSingleTrackSelection ptrack) then false
  else if requirepassedSingleTrackSelection self
          && negb (passedSingleTrackSelection ntrack) then false
  else if (V0.v0radius v0 <? minimumV0Radius self)
          || (V0.v0cosPA v0 <? v0cospa self)
          || (Rabs (Track.eta ptrack) >? etaMax self)
          || (Rabs (Track.eta ntrack) >? etaMax self) then false
  else if Rabs (V0.dcapostopv v0) <? dcanegtopv self then false
  else if Rabs (V0.dcapostopv v0) <? dcapostopv self then false
  else if V0.dcaV0daughters v0 >? dcav0dau self then false
  else if requireTOF self
          && ((Track.tofNSigmaPi ptrack <? nsigmaTOFmin self)
              || (Track.tofNSigmaPi ptrack >? nsigmaTOFmax self)) then false
  else if requireTOF self
          && ((Track.tofNSigmaPr ntrack <? nsigmaTOFmin self)
              || (Track.tofNSigmaPr ntrack >? nsigmaTOFmax self)) then false
  else if requireTPC self
          && ((Track.tpcNSigmaPr ptrack <? nsigmaTPCmin self)
              || (Track.tpcNSigmaPr ptrack >? nsigmaTPCmax self)) then false
  else if requireTPC self
          && ((Track.tpcNSigmaPi ntrack <? nsigmaTPCmin self)
              || (Track.tpcNSigmaPi ntrack >? nsigmaTPCmax self)) then false
  else
    let rapidity :=
      RapidityXYZM (V0.px v0) (V0.py v0) (V0.pz v0) 1.115683 in
    if (rapidity <? yMin self) || (rapidity >? yMax self) then false
    else true.

(** The event selection; it fills the [hNEvents] counter of [JEhistos] as
    it goes. *)
Definition AcceptEvent (collision : Collision.t)
  : state HistogramRegistry bool :=
  if sel8 self && negb (Collision.sel8 collision) then ret false
  else
    registry_fill "hNEvents" [1.5] ;;
    if isTriggerTVX self
       && negb (Collision.selection_bit collision kIsTriggerTVX)
    then ret false
    else
      registry_fill "hNEvents" [2.5] ;;
      if iscutzvertex self
         && (Rabs (Collision.posZ collision) >? cutzvertex self)
      then ret false
      else
        registry_fill "hNEvents" [3.5] ;;
        if isNoTimeFrameBorder self
           && negb (Collision.selection_bit collision kNoTimeFrameBorder)
        then ret false
        else
          registry_fill "hNEvents" [4.5] ;;
          if isNoITSROFrameBorder self
             && negb (Collision.selection_bit collision kNoITSROFrameBorder)
          then ret false
          else
            registry_fill "hNEvents" [5.5] ;;
            if isVertexTOFmatched self
               && negb (Collision.selection_bit collision
                                                kIsVertexTOFmatched)
            then ret false
            else
              registry_fill "hNEvents" [6.5] ;;
              if isGoodZvtxFT0vsPV self
                 && negb (Collision.selection_bit collision
                                                  kIsGoodZvtxFT0vsPV)
              then ret false
              else
                registry_fill "hNEvents" [7.5] ;;
                ret true.

End Selections.

(** The seven event-selection requirements, in the order [AcceptEvent]
    tests them; a requirement that is switched off holds. *)
Definition eventStages (self : myAnalysis) : list (Collision.t -> bool) :=
  [ (fun c => negb (sel8 self) || Collision.sel8 c);
    (fun c => negb (isTriggerTVX self)
              || Collision.selection_bit c kIsTriggerTVX);
    (fun c => negb (iscutzvertex self)
              || (Rabs (Collision.posZ c) <=? cutzvertex self));
    (fun c => negb (isNoTimeFrameBorder self)
              || Collision.selection_bit c kNoTimeFrameBorder);
    (fun c => negb (isNoITSROFrameBorder self)
              || Collision.selection_bit c kNoITSROFrameBorder);
    (fun c => negb (isVertexTOFmatched self)
              || Collision.selection_bit c kIsVertexTOFmatched);
    (fun c => negb (isGoodZvtxFT0vsPV self)
              || Collision.selection_bit c kIsGoodZvtxFT0vsPV) ].

(** How many requirements a collision meets before the first it misses. *)
Fixpoint eventStagesPassed (l : list (Collision.t -> bool))
                           (c : Collision.t) : nat :=
  match l with
  | [] => 0
  | stage :: rest => if stage c then S (eventStagesPassed rest c) else 0
  end.

(** The first [n] of the [hNEvents] fills at 1.5, 2.5, ..., 7.5. *)
Definition eventFills (n : nat) : HistogramRegistry :=
  firstn n [ ("hNEvents"%string, [1.5]); ("hNEvents"%string, [2.5]);
             ("hNEvents"%string, [3.5]); ("hNEvents"%string, [4.5]);
             ("hNEvents"%string, [5.5]); ("hNEvents"%string, [6.5]);
             ("hNEvents"%string, [7.5]) ].

(** [v0] with another value of [dcanegtopv]. *)
Definition withDcaNegToPV (d : R) (v0 : V0.t) : V0.t :=
  {| V0.v0radius := V0.v0radius v0; V0.v0cosPA := V0.v0cosPA v0;
     V0.dcapostopv := V0.dcapostopv v0; V0.dcanegtopv := d;
     V0.dcaV0daughters := V0.dcaV0daughters v0;
     V0.px := V0.px v0; V0.py := V0.py v0; V0.pz := V0.pz v0 |}.

(** Concrete inputs. *)
Definition sampleCollision : Collision.t :=
  {| Collision.sel8 := true;
     Collision.selection_bit := fun _ => true;
     Collision.posZ := 0 |}.

Definition sampleTrack : Track.t :=
  {| Track.hasITS := true; Track.hasTPC := true; Track.hasTOF := false;
     Track.itsNCls := 7; Track.tpcNClsFound := 120;
     Track.tpcNClsCrossedRows := 120; Track.tpcChi2NCl := 1;
     Track.eta := 0; Track.tpcNSigmaPi := 0; Track.tpcNSigmaPr := 0;
     Track.tofNSigmaPi := 0; Track.tofNSigmaPr := 0 |}.

Definition sampleV0 : V0.t :=
  {| V0.v0radius := 1; V0.v0cosPA := 0.999; V0.dcapostopv := 0.2;
     V0.dcanegtopv := 0.2; V0.dcaV0daughters := 0.1;
     V0.px := 1; V0.py := 0; V0.pz := 0 |}.

End MyAnalysis.

(** * Properties *)

(** ** Facts on comparisons *)

Lemma ltb_true a b : (a <? b) = true <-> a < b.
Proof. unfold Double.ltb. destruct (Rlt_dec a b); split; intros; easy. Qed.

Lemma ltb_false a b : (a <? b) = false <-> b <= a.
Proof.
  unfold Double.ltb. destruct (Rlt_dec a b); split; intros; try easy; lra.
Qed.

Lemma ltb_reflect a b : reflect (a < b) (a <? b).
Proof. apply iff_reflect. symmetry. apply ltb_true. Qed.

Lemma gtb_reflect a b : reflect (b < a) (a >? b).
Proof. apply ltb_reflect. Qed.

Lemma leb_reflect a b : reflect (a <= b) (a <=? b).
Proof.
  unfold Double.leb. destruct (ltb_reflect b a); constructor; lra.
Qed.

Lemma geb_reflect a b : reflect (b <= a) (a >=? b).
Proof.
  unfold Double.geb. destruct (ltb_reflect a b); constructor; lra.
Qed.

(** Case analysis on every [double] comparison in sight, keeping the
    ordering fact in the context. *)
Ltac cmp_cases :=
  repeat match goal with
  | |- context [Double.geb ?a ?b] => destruct (geb_reflect a b)
  | |- context [Double.leb ?a ?b] => destruct (leb_reflect a b)
  | |- context [Double.gtb ?a ?b] => destruct (gtb_reflect a b)
  | |- context [Double.ltb ?a ?b] => destruct (ltb_reflect a b)
  | H : context [Double.geb ?a ?b] |- _ => destruct (geb_reflect a b)
  | H : context [Double.leb ?a ?b] |- _ => destruct (leb_reflect a b)
  | H : context [Double.gtb ?a ?b] |- _ => destruct (gtb_reflect a b)
  | H : context [Double.ltb ?a ?b] |- _ => destruct (ltb_reflect a b)
  end.

(** ** Collision cuts *)

(** C8.  [collisionPassesCuts] accepts exactly the collisions whose
    [|posZ|] does not exceed the configured bound and whose gap side is the
    configured one unless gap-side tagging is switched off; a collision
    violating either condition is rejected.  The function is a pure
    predicate: it neither reads nor writes the histogram registry. *)
Theorem collisionPassesCuts_iff (self : upcRhoAnalysis) (c : Collision.t) :
  (collisionPassesCuts self c = true <->
     Rabs (Collision.posZ c) <= collisionsPosZMaxCut self
     /\ (specifyGapSide self = false
         \/ Collision.gapSide c = gapSide self))
  /\ (Rabs (Collision.posZ c) > collisionsPosZMaxCut self ->
      collisionPassesCuts self c = false)
  /\ (specifyGapSide self = true /\ Collision.gapSide c <> gapSide self ->
      collisionPassesCuts self c = false).
Proof.
  unfold collisionPassesCuts.
  destruct (gtb_reflect (Rabs (Collision.posZ c)) (collisionsPosZMaxCut self));
    destruct (specifyGapSide self);
    destruct (Z.eqb_spec (Collision.gapSide c) (gapSide self)); simpl;
    repeat split; intros; try easy; try lra; intuition (try easy; try lra).
Qed.

(** ** ZDC event tagging *)

(** The event with an A side above the energy threshold but outside the time
    window, and a C side below the threshold, under the default thresholds. *)
Lemma eventTagging_out_of_window :
  eventTagging defaults (sampleCollision 5 5 (-1) 0)
  = {| XnXn := false; OnOn := false; XnOn := false; OnXn := false |}.
Proof.
  unfold eventTagging; simpl.
  assert (HA : Rabs 5 = 5) by (apply Rabs_pos_eq; lra).
  assert (HC : Rabs 0 = 0) by apply Rabs_R0.
  rewrite HA, HC.
  f_equal; cmp_cases; simpl; try reflexivity; lra.
Qed.

(** C2.  The four tags are set exactly under the stated conditions on the
    two (energy, time) pairs, and the event with energyA = 5, timeA = 5,
    energyC = -1, timeC = 0 under the thresholds 0 and 2 gets no tag. *)
Theorem eventTagging_rules (self : upcRhoAnalysis) (c : Collision.t) :
  let energyA := Collision.energyCommonZNA c in
  let energyC := Collision.energyCommonZNC c in
  let timeA := Collision.timeZNA c in
  let timeC := Collision.timeZNC c in
  let energyThresh := ZNcommonEnergyCut self in
  let timeWindow := ZNtimeCut self in
  (OnOn (eventTagging self c) = true <->
     energyA < energyThresh /\ energyC < energyThresh)
  /\ (XnXn (eventTagging self c) = true <->
        energyA > energyThresh /\ Rabs timeA < timeWindow
        /\ energyC > energyThresh /\ Rabs timeC < timeWindow)
  /\ (XnOn (eventTagging self c) = true <->
        energyA > energyThresh /\ Rabs timeA < timeWindow
        /\ energyC < energyThresh)
  /\ (OnXn (eventTagging self c) = true <->
        energyA < energyThresh /\ energyC > energyThresh
        /\ Rabs timeC < timeWindow)
  /\ eventTagging defaults (sampleCollision 5 5 (-1) 0)
     = {| XnXn := false; OnOn := false; XnOn := false; OnXn := false |}.
Proof.
  cbv zeta. unfold eventTagging; simpl.
  repeat split; intros;
    repeat match goal with
    | H : _ && _ = true |- _ => apply andb_prop in H; destruct H
    | H : _ /\ _ |- _ => destruct H
    | H : (_ <? _) = true |- _ => apply ltb_true in H
    | H : (_ >? _) = true |- _ => apply ltb_true in H
    | |- _ && _ = true => apply andb_true_intro; split
    | |- (_ <? _) = true => apply ltb_true
    | |- (_ >? _) = true => apply ltb_true
    end; try lra.
  apply eventTagging_out_of_window.
Qed.

(** C5.  Whatever the inputs and thresholds, at most one of the four tags
    is set; for some inputs none is. *)
Theorem eventTagging_at_most_one :
  (forall (self : upcRhoAnalysis) (c : Collision.t),
     (tagCount (eventTagging self c) <= 1)%nat)
  /\ (exists (self : upcRhoAnalysis) (c : Collision.t),
        tagCount (eventTagging self c) = 0%nat).
Proof.
  split.
  - intros self c. unfold tagCount, eventTagging; simpl.
    destruct (ltb_reflect (Collision.energyCommonZNA c) (ZNcommonEnergyCut self));
      destruct (gtb_reflect (Collision.energyCommonZNA c) (ZNcommonEnergyCut self));
      destruct (ltb_reflect (Collision.energyCommonZNC c) (ZNcommonEnergyCut self));
      destruct (gtb_reflect (Collision.energyCommonZNC c) (ZNcommonEnergyCut self));
      try lra;
      destruct (Rabs (Collision.timeZNA c) <? ZNtimeCut self);
      destruct (Rabs (Collision.timeZNC c) <? ZNtimeCut self);
      simpl; lia.
  - exists defaults, (sampleCollision 5 5 (-1) 0).
    unfold tagCount. rewrite eventTagging_out_of_window. reflexivity.
Qed.

(** ** Squares as [std::pow] gives them *)

Lemma half_min_pos : 0 < Double.half_min.
Proof. unfold Double.half_min. apply Rinv_0_lt_compat, pow_lt. lra. Qed.

Lemma half_min_lt_1 : Double.half_min < 1.
Proof.
  unfold Double.half_min.
  assert (H : 1 < 2 ^ 1075) by (apply Rlt_pow_R1; [lra | lia]).
  set (p := 2 ^ 1075) in *.
  rewrite <- Rinv_1. apply Rinv_lt_contravar; lra.
Qed.


Lemma pow2_kept (x : R) : Double.square_kept x -> Double.pow2 x = x ^ 2.
Proof.
  pose proof half_min_pos as Hh. unfold Double.pow2.
  intros [-> | Hx].
  - destruct (leb_reflect (0 * 0) Double.half_min); simpl; lra.
  - destruct (leb_reflect (x * x) Double.half_min); simpl; lra.
Qed.


Lemma square_kept_above_1 (x : R) : 1 <= Rabs x -> Double.square_kept x.
Proof.
  intros Hx. right. pose proof half_min_lt_1 as Hh.
  assert (Hsq : 1 <= x * x).
  { replace 1 with (Rabs 1) in Hx by (apply Rabs_pos_eq; lra).
    apply Rsqr_le_abs_1 in Hx. unfold Rsqr in Hx. lra. }
  lra.
Qed.

(** A cut of at least [2^-537] has a positive square: the square is at
    least [2^-1074], the smallest positive [double]. *)
Lemma pow2_positive (x : R) : / 2 ^ 537 <= x -> 0 < Double.pow2 x.
Proof.
  intros Hx.
  assert (Hp : 0 < / 2 ^ 537) by (apply Rinv_0_lt_compat, pow_lt; lra).
  assert (Hsq : / 2 ^ 537 * / 2 ^ 537 = / 2 ^ 1074).
  { rewrite <- Rinv_mult, <- pow_add. reflexivity. }
  assert (Hlt : Double.half_min < / 2 ^ 1074).
  { unfold Double.half_min. apply Rinv_lt_contravar.
    - apply Rmult_lt_0_compat; apply pow_lt; lra.
    - apply Rlt_pow; [lra | lia]. }
  set (p := / 2 ^ 537) in *. set (q := / 2 ^ 1074) in *.
  unfold Double.pow2.
  destruct (leb_reflect (x * x) Double.half_min); simpl; nra.
Qed.

(** The square of [2^-600] underflows. *)
Lemma pow2_underflow : 0 < / 2 ^ 600 /\ Double.pow2 (/ 2 ^ 600) = 0.
Proof.
  assert (Hp : 0 < / 2 ^ 600) by (apply Rinv_0_lt_compat, pow_lt; lra).
  split; [exact Hp|].
  assert (Hsq : / 2 ^ 600 * / 2 ^ 600 = / 2 ^ 1200).
  { rewrite <- Rinv_mult, <- pow_add. reflexivity. }
  assert (Hlt : / 2 ^ 1200 < Double.half_min).
  { unfold Double.half_min. apply Rinv_lt_contravar.
    - apply Rmult_lt_0_compat; apply pow_lt; lra.
    - apply Rlt_pow; [lra | lia]. }
  unfold Double.pow2. rewrite Hsq.
  destruct (leb_reflect (/ 2 ^ 1200) Double.half_min); [reflexivity | lra].
Qed.

(** ** The joint PID cut *)

Lemma radius_fold (tracks : list Track.t) (radius : R) :
  fold_left (fun radius track =>
               radius + Double.pow2 (Track.tpcNSigmaPi track))
            tracks radius
  = radius + sumNSigmaPiSquared tracks.
Proof.
  revert radius. induction tracks as [|track rest IH]; intros radius; simpl.
  - lra.
  - rewrite IH. unfold sumNSigmaPiSquared. lra.
Qed.

Lemma tracksPassPiPID_sum (self : upcRhoAnalysis) (tracks : list Track.t) :
  tracksPassPiPID self tracks = true
  <-> sumNSigmaPiSquared tracks < Double.pow2 (tracksTpcNSigmaPiCut self).
Proof.
  unfold tracksPassPiPID. rewrite radius_fold, ltb_true.
  split; intros; lra.
Qed.





(** A set with a track above the per-track cut is accepted only under a
    negative cut, whose square still bounds the sum. *)
Lemma tracksPassPiPID_negative_cut :
  exists (self : upcRhoAnalysis) (t : Track.t),
    Rabs (Track.tpcNSigmaPi t) > tracksTpcNSigmaPiCut self
    /\ tracksPassPiPID self [t] = true.
Proof.
  exists (withTpcNSigmaPiCut (-3) defaults), (sampleTrack 1 0 0 0 1).
  split.
  - simpl. rewrite Rabs_pos_eq; lra.
  - apply tracksPassPiPID_sum.
    cbn [sumNSigmaPiSquared fold_right sampleTrack Track.tpcNSigmaPi
         withTpcNSigmaPiCut tracksTpcNSigmaPiCut].
    rewrite (pow2_kept 1), (pow2_kept (-3)).
    + simpl. lra.
    + apply square_kept_above_1. rewrite Rabs_left; lra.
    + apply square_kept_above_1. rewrite Rabs_pos_eq; lra.
Qed.

(** ** Track cuts *)

Lemma trackPassesCuts_run (self : upcRhoAnalysis) (eta : R -> R -> R -> R)
    (track : Track.t) (registry : HistogramRegistry) :
  let n := stagesPassed (stages self eta) track in
  runState (trackPassesCuts self eta track) registry
  = (Nat.eqb n 5, registry ++ counterFills n).
Proof.
  cbv zeta. unfold trackPassesCuts, stages, stagesPassed, counterFills.
  unfold Double.leb, Double.gtb.
  destruct (Track.isPVContributor track); simpl;
    [|now rewrite app_nil_r].
  destruct (Track.hasITS track); simpl; [|reflexivity].
  destruct (Track.hasTPC track); simpl; [|reflexivity].
  assert (Htof : requireTof self && negb (Track.hasTOF track)
                 = negb (negb (requireTof self) || Track.hasTOF track))
    by (destruct (requireTof self), (Track.hasTOF track); reflexivity).
  rewrite Htof.
  destruct (negb (requireTof self) || Track.hasTOF track); simpl;
    [|now rewrite <- app_assoc].
  destruct (tracksDcaMaxCut self <? Rabs (Track.dcaZ track)); simpl;
    [now rewrite <- !app_assoc|].
  destruct (Double.exceeds (Rabs (Track.dcaXY track))
                           (dcaXYMax (Track.pt track))); simpl;
    [now rewrite <- !app_assoc|].
  destruct (PcEtaCut self
            <? Rabs (eta (Track.px track) (Track.py track) (Track.pz track)));
    simpl; now rewrite <- !app_assoc.
Qed.

Lemma selectionCounterFills_app (r1 r2 : HistogramRegistry) :
  selectionCounterFills (r1 ++ r2)
  = (selectionCounterFills r1 + selectionCounterFills r2)%nat.
Proof.
  unfold selectionCounterFills. now rewrite filter_app, length_app.
Qed.

Lemma selectionCounterFills_counterFills (n : nat) :
  selectionCounterFills (counterFills n) = n.
Proof.
  unfold selectionCounterFills, counterFills.
  generalize 1%nat. induction n as [|n IH]; intros k; simpl; [reflexivity|].
  now rewrite IH.
Qed.

Lemma stagesPassed_le (l : list (Track.t -> bool)) (track : Track.t) :
  (stagesPassed l track <= List.length l)%nat.
Proof. induction l as [|s l IH]; simpl; [lia|]. destruct (s track); lia. Qed.

Lemma stagesPassed_prefix (l : list (Track.t -> bool)) (track : Track.t) :
  Forall (fun stage => stage track = true) (firstn (stagesPassed l track) l)
  /\ (stagesPassed l track < List.length l ->
      exists stage, nth_error l (stagesPassed l track) = Some stage
                    /\ stage track = false)%nat.
Proof.
  induction l as [|s l [IH1 IH2]]; simpl.
  - split; [constructor | lia].
  - destruct (s track) eqn:Hs; simpl.
    + split; [now constructor|]. intros H. apply IH2. lia.
    + split; [constructor|]. intros _. now exists s.
Qed.

(** C3.  One call of [trackPassesCuts] goes through the five stages in the
    order PV contributor, ITS and TPC, TOF if required, DCA, pseudorapidity
    and stops at the first stage that fails: with [n] the number of leading
    stages the track passes, every stage before position [n] holds and the
    stage at position [n], if there is one, fails; the call appends to the
    registry the selection-counter fills of bins 1 to [n] and nothing else,
    so it makes [n] increments, and it returns [true] exactly when all five
    stages pass. *)
Theorem trackPassesCuts_counts_stages (self : upcRhoAnalysis)
    (eta : R -> R -> R -> R) (track : Track.t)
    (registry : HistogramRegistry) :
  let n := stagesPassed (stages self eta) track in
  let result := runState (trackPassesCuts self eta track) registry in
  List.length (stages self eta) = 5%nat
  /\ (n <= 5)%nat
  /\ Forall (fun stage => stage track = true) (firstn n (stages self eta))
  /\ ((n < 5)%nat ->
      exists stage, nth_error (stages self eta) n = Some stage
                    /\ stage track = false)
  /\ snd result = registry ++ counterFills n
  /\ selectionCounterFills (snd result)
     = (selectionCounterFills registry + n)%nat
  /\ (fst result = true <-> n = 5%nat)
  /\ (fst result = true ->
      Forall (fun stage => stage track = true) (stages self eta)).
Proof.
  cbv zeta. rewrite trackPassesCuts_run.
  pose proof (stagesPassed_le (stages self eta) track) as Hle.
  pose proof (stagesPassed_prefix (stages self eta) track) as [Hpre Hfail].
  change (List.length (stages self eta)) with 5%nat in *.
  set (n := stagesPassed (stages self eta) track) in *.
  cbn [fst snd].
  repeat split; try assumption.
  - now rewrite selectionCounterFills_app, selectionCounterFills_counterFills.
  - apply Nat.eqb_eq.
  - apply Nat.eqb_eq.
  - intros H. apply Nat.eqb_eq in H. rewrite H in Hpre. exact Hpre.
Qed.

Lemma counterFills_length (n : nat) : List.length (counterFills n) = n.
Proof. unfold counterFills. now rewrite length_map, length_seq. Qed.

Lemma dcaXYMax_positive (pt : R) :
  0 < pt -> dcaXYMax pt = Some (0.0182 + 0.0350 / Rpower pt 1.01).
Proof.
  intros Hpt. unfold dcaXYMax. destruct (ltb_reflect 0 pt); [reflexivity|lra].
Qed.

Lemma dcaXYMax_not_positive (pt : R) : pt <= 0 -> dcaXYMax pt = None.
Proof.
  intros Hpt. unfold dcaXYMax. destruct (ltb_reflect 0 pt); [lra|reflexivity].
Qed.

Lemma dcaXYMax_decreasing (p1 p2 : R) :
  0 < p1 < p2 ->
  0.0182 + 0.0350 / Rpower p2 1.01 < 0.0182 + 0.0350 / Rpower p1 1.01.
Proof.
  intros Hp.
  assert (Hpow : Rpower p1 1.01 < Rpower p2 1.01)
    by (apply Rlt_Rpower_l; lra).
  assert (Hpos : 0 < Rpower p1 1.01) by apply exp_pos.
  assert (Hinv : / Rpower p2 1.01 < / Rpower p1 1.01)
    by (apply Rinv_0_lt_contravar; assumption).
  unfold Rdiv. lra.
Qed.

(** A track that passes the first three stages stops at the DCA stage
    exactly when the condition of its [if] holds. *)
Lemma trackPassesCuts_stops_at_dca (self : upcRhoAnalysis)
    (eta : R -> R -> R -> R) (track : Track.t)
    (registry : HistogramRegistry) :
  Track.isPVContributor track = true ->
  Track.hasITS track = true ->
  Track.hasTPC track = true ->
  requireTof self = false \/ Track.hasTOF track = true ->
  runState (trackPassesCuts self eta track) registry
  = (false, registry ++ counterFills 3)
  <-> (Rabs (Track.dcaZ track) >? tracksDcaMaxCut self)
      || Double.exceeds (Rabs (Track.dcaXY track))
                        (dcaXYMax (Track.pt track)) = true.
Proof.
  intros Hpv Hits Htpc Htof.
  rewrite trackPassesCuts_run. cbv zeta.
  assert (Htof' : negb (requireTof self) || Track.hasTOF track = true)
    by (destruct Htof as [-> | ->]; [reflexivity | apply orb_true_r]).
  unfold stages, stagesPassed. rewrite Hpv, Hits, Htpc, Htof'. simpl andb.
  unfold Double.leb, Double.gtb.
  assert (Hlen : forall k, (registry ++ counterFills k
                            = registry ++ counterFills 3 -> k = 3)%nat).
  { intros k Hk. apply app_inv_head in Hk.
    apply (f_equal (@List.length _)) in Hk.
    now rewrite !counterFills_length in Hk. }
  destruct (tracksDcaMaxCut self <? Rabs (Track.dcaZ track));
    destruct (Double.exceeds (Rabs (Track.dcaXY track))
                             (dcaXYMax (Track.pt track)));
    cbn [negb andb orb]; try (split; reflexivity).
  split; [|discriminate].
  intros H. exfalso.
  destruct (negb (PcEtaCut self
                  <? Rabs (eta (Track.px track) (Track.py track)
                               (Track.pz track))));
    apply (f_equal snd) in H; cbn [snd] in H; apply Hlen in H;
    discriminate.
Qed.

(** C9.  For a track that reaches the DCA stage (the first three stages
    pass) and has a positive [pT], the call stops there, after exactly the
    fills of bins 1 to 3, if and only if [|dcaZ|] exceeds the configured
    bound or [|dcaXY|] exceeds [0.0182 + 0.0350 / pT^1.01]; over positive
    [pT] that transverse bound decreases strictly.  When [pT] is not
    positive the transverse bound is not finite and only [|dcaZ|] can stop
    the track. *)
Theorem trackPassesCuts_dca_stage (self : upcRhoAnalysis)
    (eta : R -> R -> R -> R) (track : Track.t)
    (registry : HistogramRegistry) :
  Track.isPVContributor track = true ->
  Track.hasITS track = true ->
  Track.hasTPC track = true ->
  requireTof self = false \/ Track.hasTOF track = true ->
  (0 < Track.pt track ->
   (runState (trackPassesCuts self eta track) registry
    = (false, registry ++ counterFills 3)
    <-> Rabs (Track.dcaZ track) > tracksDcaMaxCut self
        \/ Rabs (Track.dcaXY track)
           > 0.0182 + 0.0350 / Rpower (Track.pt track) 1.01))
  /\ (Track.pt track <= 0 ->
      (runState (trackPassesCuts self eta track) registry
       = (false, registry ++ counterFills 3)
       <-> Rabs (Track.dcaZ track) > tracksDcaMaxCut self))
  /\ (forall p1 p2 : R,
        0 < p1 < p2 ->
        0.0182 + 0.0350 / Rpower p2 1.01 < 0.0182 + 0.0350 / Rpower p1 1.01).
Proof.
  intros Hpv Hits Htpc Htof.
  pose proof (trackPassesCuts_stops_at_dca self eta track registry
                Hpv Hits Htpc Htof) as Hstop.
  split; [|split; [|exact dcaXYMax_decreasing]].
  - intros Hpt. rewrite Hstop, (dcaXYMax_positive _ Hpt).
    unfold Double.exceeds, Double.gtb.
    destruct (ltb_reflect (tracksDcaMaxCut self) (Rabs (Track.dcaZ track)));
      destruct (ltb_reflect
                  (0.0182 + 0.0350 / Rpower (Track.pt track) 1.01)
                  (Rabs (Track.dcaXY track)));
      cbn [orb]; split; auto; try discriminate.
    intros [H | H]; lra.
  - intros Hpt. rewrite Hstop, (dcaXYMax_not_positive _ Hpt).
    unfold Double.exceeds, Double.gtb.
    destruct (ltb_reflect (tracksDcaMaxCut self) (Rabs (Track.dcaZ track)));
      cbn [orb]; split; auto; try discriminate; intros H; lra.
Qed.

(** ** Four-vector facts *)

Lemma atan2_range (y x : R) : - PI < atan2 y x <= PI.
Proof.
  pose proof PI_RGT_0 as Hpi. unfold atan2.
  pose proof (atan_bound (y / x)) as Hb.
  destruct (ltb_reflect 0 x); [lra|].
  destruct (ltb_reflect x 0).
  - destruct (ltb_reflect y 0).
    + assert (Hq : 0 < y / x).
      { unfold Rdiv. assert (/ x < 0) by now apply Rinv_lt_0_compat.
        nra. }
      assert (0 < atan (y / x))
        by (rewrite <- atan_0; now apply atan_increasing).
      lra.
    + assert (Hq : y / x <= 0).
      { unfold Rdiv. assert (/ x < 0) by now apply Rinv_lt_0_compat.
        nra. }
      assert (atan (y / x) <= 0).
      { destruct Hq as [Hq | Hq].
        - left. rewrite <- atan_0. now apply atan_increasing.
        - rewrite Hq, atan_0. lra. }
      lra.
  - destruct (ltb_reflect 0 y); [lra|].
    destruct (ltb_reflect y 0); lra.
Qed.

Lemma atan2_pos_axis (x : R) : 0 < x -> atan2 0 x = 0.
Proof.
  intros Hx. unfold atan2. destruct (ltb_reflect 0 x); [|lra].
  unfold Rdiv. now rewrite Rmult_0_l, atan_0.
Qed.

Lemma atan2_neg_axis (x : R) : x < 0 -> atan2 0 x = PI.
Proof.
  intros Hx. unfold atan2. destruct (ltb_reflect 0 x); [lra|].
  destruct (ltb_reflect x 0); [|lra].
  destruct (ltb_reflect 0 0); [lra|].
  unfold Rdiv. rewrite Rmult_0_l, atan_0. lra.
Qed.

Module VectorFacts.
Import PxPyPzMVector.

Lemma E_nonneg (v : t) : 0 <= E v.
Proof. apply sqrt_pos. Qed.

Lemma M2_SetXYZT (x y z e : R) :
  M2 (SetXYZT x y z e) = e * e - x * x - y * y - z * z.
Proof.
  unfold M2, SetXYZT; simpl.
  set (mm := e * e - x * x - y * y - z * z).
  destruct (geb_reflect mm 0) as [Hmm | Hmm].
  - pose proof (sqrt_pos mm).
    destruct (geb_reflect (sqrt mm) 0); [|lra].
    now apply sqrt_sqrt.
  - assert (Hs : 0 < sqrt (- mm)) by (apply sqrt_lt_R0; lra).
    destruct (geb_reflect (- sqrt (- mm)) 0); [lra|].
    assert (Hq : sqrt (- mm) * sqrt (- mm) = - mm) by (apply sqrt_sqrt; lra).
    lra.
Qed.

Lemma E_SetXYZT (x y z e : R) : 0 <= e -> E (SetXYZT x y z e) = e.
Proof.
  intros He. unfold E, E2. rewrite M2_SetXYZT. unfold P2, SetXYZT; simpl.
  replace (x * x + y * y + z * z + (e * e - x * x - y * y - z * z))
    with (e * e) by lra.
  destruct (gtb_reflect (e * e) 0).
  - now apply sqrt_square.
  - assert (e = 0) by nra. subst e. apply sqrt_0.
Qed.

Lemma E_add (v w : t) : E (v + w)%vec = E v + E w.
Proof.
  unfold add. apply E_SetXYZT.
  pose proof (E_nonneg v). pose proof (E_nonneg w). lra.
Qed.

Lemma fX_add (v w : t) : fX (v + w)%vec = fX v + fX w.
Proof. reflexivity. Qed.

Lemma fY_add (v w : t) : fY (v + w)%vec = fY v + fY w.
Proof. reflexivity. Qed.

Lemma fZ_add (v w : t) : fZ (v + w)%vec = fZ v + fZ w.
Proof. reflexivity. Qed.

Lemma fX_sub (v w : t) : fX (v - w)%vec = fX v - fX w.
Proof. reflexivity. Qed.

Lemma fY_sub (v w : t) : fY (v - w)%vec = fY v - fY w.
Proof. reflexivity. Qed.

End VectorFacts.

(** ** The wrapped azimuthal difference *)

Lemma deltaPhi_single_wrap (p1 p2 : PxPyPzMVector.t) :
  let dPhi := PxPyPzMVector.Phi p1 - PxPyPzMVector.Phi p2 in
  deltaPhi p1 p2 = dPhi
  \/ deltaPhi p1 p2 = dPhi - 2 * PI
  \/ deltaPhi p1 p2 = dPhi + 2 * PI.
Proof.
  cbv zeta. unfold deltaPhi. cmp_cases; auto.
Qed.

(** The result lies in the closed interval: both end points are possible. *)
Lemma deltaPhi_closed_range (p1 p2 : PxPyPzMVector.t) :
  - PI <= deltaPhi p1 p2 <= PI.
Proof.
  pose proof (atan2_range (PxPyPzMVector.fY p1) (PxPyPzMVector.fX p1)).
  pose proof (atan2_range (PxPyPzMVector.fY p2) (PxPyPzMVector.fX p2)).
  unfold deltaPhi, PxPyPzMVector.Phi. cmp_cases; lra.
Qed.

(** Away from a raw difference of exactly [-PI] the result is in the
    half-open interval. *)
Lemma deltaPhi_half_open (p1 p2 : PxPyPzMVector.t) :
  PxPyPzMVector.Phi p1 - PxPyPzMVector.Phi p2 <> - PI ->
  - PI < deltaPhi p1 p2 <= PI.
Proof.
  intros Hne.
  pose proof (atan2_range (PxPyPzMVector.fY p1) (PxPyPzMVector.fX p1)).
  pose proof (atan2_range (PxPyPzMVector.fY p2) (PxPyPzMVector.fX p2)).
  unfold deltaPhi, PxPyPzMVector.Phi in *. cmp_cases; lra.
Qed.

(** In exact arithmetic the lower end point is met: for the vectors with
    azimuthal angles 0 and [PI] the raw difference is exactly [-PI], the
    strict test [dPhi < -PI] does not wrap it and [deltaPhi] returns [-PI].
    Whether the [double] computation meets an end point depends on the
    rounding of [Phi] and on the declared value of
    [o2::constants::math::PI], which this model does not carry. *)
Lemma deltaPhi_returns_minus_PI :
  let p1 := samplePion 1 0 0 in
  let p2 := samplePion (-1) 0 0 in
  (- PI < PxPyPzMVector.Phi p1 <= PI)
  /\ (- PI < PxPyPzMVector.Phi p2 <= PI)
  /\ deltaPhi p1 p2 = - PI
  /\ ~ (- PI < deltaPhi p1 p2 <= PI).
Proof.
  cbv zeta.
  assert (H1 : PxPyPzMVector.Phi (samplePion 1 0 0) = 0)
    by (unfold PxPyPzMVector.Phi; simpl; apply atan2_pos_axis; lra).
  assert (H2 : PxPyPzMVector.Phi (samplePion (-1) 0 0) = PI)
    by (unfold PxPyPzMVector.Phi; simpl; apply atan2_neg_axis; lra).
  assert (Hd : deltaPhi (samplePion 1 0 0) (samplePion (-1) 0 0) = - PI).
  { unfold deltaPhi. rewrite H1, H2. pose proof PI_RGT_0.
    cmp_cases; lra. }
  pose proof PI_RGT_0.
  rewrite H1, H2, Hd. repeat split; lra.
Qed.

(** In exact arithmetic the decay angle of a collinear pair is at that end
    point: the
    positive track with transverse momentum (1, 0), the negative one with
    (3, 0). *)
Lemma getPhiCharge_collinear_pair :
  getPhiCharge [sampleTrack 1 1 0 0 0; sampleTrack (-1) 3 0 0 0]
               [samplePion 1 0 0; samplePion 3 0 0]
  = Some (- PI).
Proof.
  unfold getPhiCharge; simpl. f_equal.
  unfold deltaPhi, PxPyPzMVector.Phi.
  rewrite VectorFacts.fX_add, VectorFacts.fY_add,
          VectorFacts.fX_sub, VectorFacts.fY_sub; simpl.
  replace (0 + 0) with 0 by lra. replace (0 - 0) with 0 by lra.
  rewrite atan2_pos_axis by lra. rewrite atan2_neg_axis by lra.
  pose proof PI_RGT_0. cmp_cases; lra.
Qed.

(** ** The charge-based decay angle *)

(** C6.  For a pair of oppositely charged tracks given with their
    four-vectors, [getPhiCharge] takes the vector of the positive track as
    [pOne] and the other as [pTwo] and returns
    [deltaPhi (pOne + pTwo) (pOne - pTwo)], in whichever order the pair is
    stored; the value is a function of the tracks and vectors alone: the
    charge-based component of [decayAngles] is the same under every shuffle
    and every seed. *)
Theorem getPhiCharge_charge_roles (tPos tNeg : Track.t)
    (vPos vNeg : PxPyPzMVector.t) :
  (Track.sign tPos > 0)%Z ->
  (Track.sign tNeg < 0)%Z ->
  let pOne := vPos in
  let pTwo := vNeg in
  getPhiCharge [tPos; tNeg] [vPos; vNeg]
  = Some (deltaPhi (pOne + pTwo)%vec (pOne - pTwo)%vec)
  /\ getPhiCharge [tNeg; tPos] [vNeg; vPos]
     = Some (deltaPhi (pOne + pTwo)%vec (pOne - pTwo)%vec)
  /\ (forall (shuffle1 shuffle2 : Z -> list nat -> list nat)
             (seed1 seed2 : Z),
        snd (decayAngles shuffle1 seed1 [tPos; tNeg] [vPos; vNeg])
        = snd (decayAngles shuffle2 seed2 [tPos; tNeg] [vPos; vNeg])).
Proof.
  intros Hpos Hneg. cbv zeta. unfold getPhiCharge; simpl.
  assert (Hp : (Track.sign tPos >? 0)%Z = true) by (apply Z.gtb_lt; lia).
  assert (Hn : (Track.sign tNeg >? 0)%Z = false).
  { destruct (Track.sign tNeg >? 0)%Z eqn:E; [|reflexivity].
    apply Z.gtb_lt in E. lia. }
  rewrite Hp, Hn. repeat split; reflexivity.
Qed.

(** The random-pairing angle, in contrast, changes with the outcome of the
    shuffle. *)
Lemma getPhiRandom_depends_on_shuffle :
  let vecs := [samplePion 1 0 0; samplePion 0 1 0] in
  getPhiRandom (fun _ indices => indices) 0 vecs = Some (PI / 2)
  /\ getPhiRandom (fun _ indices => rev indices) 0 vecs = Some (- (PI / 2)).
Proof.
  cbv zeta. unfold getPhiRandom; simpl.
  assert (Hm : atan (-1) = - (PI / 4)).
  { replace (-1) with (Ropp 1) by lra. rewrite atan_opp, atan_1. lra. }
  pose proof PI_RGT_0 as Hpi.
  split; f_equal; unfold deltaPhi, PxPyPzMVector.Phi;
    rewrite VectorFacts.fX_add, VectorFacts.fY_add,
            VectorFacts.fX_sub, VectorFacts.fY_sub; simpl.
  - replace (1 + 0) with 1 by lra. replace (0 + 1) with 1 by lra.
    replace (1 - 0) with 1 by lra. replace (0 - 1) with (-1) by lra.
    unfold atan2. destruct (ltb_reflect 0 1); [|lra].
    replace (1 / 1) with 1 by lra. replace (-1 / 1) with (-1) by lra.
    rewrite atan_1, Hm. cmp_cases; lra.
  - replace (0 + 1) with 1 by lra. replace (1 + 0) with 1 by lra.
    replace (0 - 1) with (-1) by lra. replace (1 - 0) with 1 by lra.
    unfold atan2. destruct (ltb_reflect 0 1); [|lra].
    destruct (ltb_reflect 0 (-1)); [lra|].
    destruct (ltb_reflect (-1) 0); [|lra].
    replace (1 / 1) with 1 by lra. replace (1 / -1) with (-1) by lra.
    rewrite atan_1, Hm. cmp_cases; lra.
Qed.

(** ** System reconstruction *)

Lemma sumOf_permutation (f : PxPyPzMVector.t -> R)
    (l l' : list PxPyPzMVector.t) :
  Permutation l l' -> sumOf f l = sumOf f l'.
Proof.
  induction 1 as [| v l l' _ IH | v w l | l l' l'' _ IH1 _ IH2]; simpl.
  - reflexivity.
  - now rewrite IH.
  - lra.
  - now rewrite IH1.
Qed.

Lemma SetXYZT_ext (x y z e x' y' z' e' : R) :
  x = x' -> y = y' -> z = z' -> e = e' ->
  PxPyPzMVector.SetXYZT x y z e = PxPyPzMVector.SetXYZT x' y' z' e'.
Proof. now intros -> -> -> ->. Qed.

Lemma E_zero : PxPyPzMVector.E PxPyPzMVector.zero = 0.
Proof.
  unfold PxPyPzMVector.E, PxPyPzMVector.E2, PxPyPzMVector.P2,
         PxPyPzMVector.M2; simpl.
  cmp_cases; try apply sqrt_0; lra.
Qed.

Lemma vectorSum_nil : vectorSum [] = PxPyPzMVector.zero.
Proof.
  unfold vectorSum, PxPyPzMVector.SetXYZT, PxPyPzMVector.zero; simpl.
  replace (0 * 0 - 0 * 0 - 0 * 0 - 0 * 0) with 0 by lra.
  destruct (geb_reflect 0 0); [|lra]. now rewrite sqrt_0.
Qed.

Lemma fold_add (l : list PxPyPzMVector.t) (v acc : PxPyPzMVector.t) :
  fold_left (fun system track4Vec => (system + track4Vec)%vec) (v :: l) acc
  = PxPyPzMVector.SetXYZT
      (PxPyPzMVector.Px acc + sumOf PxPyPzMVector.Px (v :: l))
      (PxPyPzMVector.Py acc + sumOf PxPyPzMVector.Py (v :: l))
      (PxPyPzMVector.Pz acc + sumOf PxPyPzMVector.Pz (v :: l))
      (PxPyPzMVector.E acc + sumOf PxPyPzMVector.E (v :: l)).
Proof.
  revert v acc. induction l as [|w l IH]; intros v acc.
  - simpl. unfold PxPyPzMVector.add. apply SetXYZT_ext; lra.
  - change (fold_left _ (v :: w :: l) acc)
      with (fold_left (fun system track4Vec => (system + track4Vec)%vec)
                      (w :: l) (acc + v)%vec).
    rewrite IH. rewrite VectorFacts.E_add.
    apply SetXYZT_ext; simpl; lra.
Qed.

Lemma reconstructSystem_vectorSum (l : list PxPyPzMVector.t) :
  reconstructSystem l = vectorSum l.
Proof.
  unfold reconstructSystem. destruct l as [|v l].
  - now rewrite vectorSum_nil.
  - rewrite fold_add, E_zero. unfold vectorSum.
    apply SetXYZT_ext; simpl; lra.
Qed.

(** C7, where it fails.  In the arithmetic of [double] the sums of
    [reconstructSystem] are rounded one after the other in list order: the
    mass of the system of three four-vectors differs in its last digits
    between the list and the list rotated by one place.  The momentum sums
    are exact on this input and the transverse momentum is the same; the
    difference comes in through the sum of the energies. *)
Lemma reconstructSystem_order_dependent :
  let l := [Binary64.vecA; Binary64.vecB; Binary64.vecC] in
  let l' := [Binary64.vecB; Binary64.vecC; Binary64.vecA] in
  Permutation l l'
  /\ Binary64.PxPyPzMVector.M (Binary64.reconstructSystem l)
     = 0x1.f195941199c4bp+0%float
  /\ Binary64.PxPyPzMVector.M (Binary64.reconstructSystem l')
     = 0x1.f195941199c4dp+0%float
  /\ PrimFloat.eqb
       (Binary64.PxPyPzMVector.M (Binary64.reconstructSystem l))
       (Binary64.PxPyPzMVector.M (Binary64.reconstructSystem l'))
     = false
  /\ PrimFloat.eqb
       (Binary64.PxPyPzMVector.Pt (Binary64.reconstructSystem l))
       (Binary64.PxPyPzMVector.Pt (Binary64.reconstructSystem l'))
     = true.
Proof.
  cbv zeta. split.
  - apply (Permutation_cons_append [Binary64.vecB; Binary64.vecC]
                                   Binary64.vecA).
  - repeat split; vm_compute; reflexivity.
Qed.

(** C7.  In exact arithmetic, reordering the list of four-vectors does not
    change the reconstructed system: its mass, transverse momentum and
    rapidity are the same for every permutation of the input. *)
Theorem reconstructSystem_permutation (l l' : list PxPyPzMVector.t) :
  Permutation l l' ->
  PxPyPzMVector.M (reconstructSystem l)
  = PxPyPzMVector.M (reconstructSystem l')
  /\ PxPyPzMVector.Pt (reconstructSystem l)
     = PxPyPzMVector.Pt (reconstructSystem l')
  /\ PxPyPzMVector.Rapidity (reconstructSystem l)
     = PxPyPzMVector.Rapidity (reconstructSystem l').
Proof.
  intros Hperm.
  assert (Heq : reconstructSystem l = reconstructSystem l').
  { rewrite !reconstructSystem_vectorSum. unfold vectorSum.
    apply SetXYZT_ext; now apply sumOf_permutation. }
  now rewrite Heq.
Qed.

(** ** The PID gate on an empty selection *)

Lemma runState_bind {S A B : Type} (c : state S A) (f : A -> state S B)
    (s : S) :
  runState (bind c f) s
  = let (a, s') := runState c s in runState (f a) s'.
Proof. reflexivity. Qed.

Lemma runState_fill (name : string) (values : list R)
    (registry : HistogramRegistry) :
  runState (registry_fill name values) registry
  = (tt, registry ++ [(name, values)]).
Proof. reflexivity. Qed.

Lemma trackLoop_all_rejected (self : upcRhoAnalysis)
    (eta : R -> R -> R -> R) (mass : R) (tracks : list Track.t)
    (acc : Selected) (registry : HistogramRegistry) :
  (forall track, In track tracks ->
     stagesPassed (stages self eta) track <> 5%nat) ->
  fst (runState (trackLoop self eta mass tracks acc) registry) = acc.
Proof.
  revert registry. induction tracks as [|track rest IH]; intros registry Hrej.
  - reflexivity.
  - cbn [trackLoop].
    repeat (rewrite runState_bind, runState_fill).
    rewrite runState_bind, trackPassesCuts_run. cbv zeta.
    assert (Hn : Nat.eqb (stagesPassed (stages self eta) track) 5 = false)
      by (apply Nat.eqb_neq, Hrej; now left).
    rewrite Hn. cbn [negb]. apply IH.
    intros t Ht. apply Hrej. now right.
Qed.

Lemma tracksPassPiPID_nil (self : upcRhoAnalysis) :
  / 2 ^ 537 <= tracksTpcNSigmaPiCut self -> tracksPassPiPID self [] = true.
Proof.
  intros Hcut. apply tracksPassPiPID_sum. simpl.
  now apply pow2_positive.
Qed.

(** C10, where it fails.  The sigma cut [2^-600] is positive, but its
    square underflows to 0 and the radius 0 of the empty collection is not
    strictly below it: the empty collection is rejected. *)
Lemma tracksPassPiPID_nil_tiny_cut :
  0 < tracksTpcNSigmaPiCut (withTpcNSigmaPiCut (/ 2 ^ 600) defaults)
  /\ tracksPassPiPID (withTpcNSigmaPiCut (/ 2 ^ 600) defaults) [] = false.
Proof.
  destruct pow2_underflow as [Hpos Hzero]. split; [exact Hpos|].
  unfold tracksPassPiPID.
  cbn [fold_left withTpcNSigmaPiCut tracksTpcNSigmaPiCut].
  rewrite Hzero. destruct (ltb_reflect 0.0 0); [lra | reflexivity].
Qed.

(** C10.  Under a sigma cut of at least [2^-537], whose square is a
    positive [double], the empty track collection passes
    [tracksPassPiPID]: the radius stays 0, strictly below the squared cut.
    Hence an accepted collision none of whose tracks survives the track cuts
    is not stopped at the PID gate: [processReco] goes on to the
    selection-counter fill of bin 6 that follows the gate, carrying an empty
    selection. *)
Theorem empty_selection_passes_PID_gate (self : upcRhoAnalysis)
    (eta : R -> R -> R -> R) (MassPionCharged : R)
    (collision : Collision.t) (tracks : list Track.t)
    (registry : HistogramRegistry) :
  / 2 ^ 537 <= tracksTpcNSigmaPiCut self ->
  tracksPassPiPID self [] = true
  /\ (collisionPassesCuts self collision = true ->
      (forall track r, In track tracks ->
         fst (runState (trackPassesCuts self eta track) r) = false) ->
      exists registry',
        runState (processRecoSelection self eta MassPionCharged
                                       collision tracks) registry
        = (Some {| tags := eventTagging self collision;
                   selected := {| trackCounter := 0;
                                  cutTracks := [];
                                  cutTracks4Vecs := [] |} |},
           registry' ++ [(hSelectionCounter, [6; 2])])).
Proof.
  intros Hcut. split; [now apply tracksPassPiPID_nil|].
  intros Hcoll Hrej.
  unfold processRecoSelection.
  repeat (rewrite runState_bind, runState_fill).
  rewrite Hcoll. cbn [negb].
  rewrite runState_bind.
  match goal with
  | |- context [runState (trackLoop ?a ?b ?c ?d ?e) ?r] =>
      pose proof (trackLoop_all_rejected a b c d e r) as Hloop;
      destruct (runState (trackLoop a b c d e) r) as [sel r'] eqn:Hrun
  end.
  cbn [fst] in Hloop. rewrite Hloop.
  2:{ intros track Hin Hfive.
      specialize (Hrej track [] Hin).
      rewrite trackPassesCuts_run in Hrej. cbv zeta in Hrej. cbn [fst] in Hrej.
      rewrite Hfive in Hrej. discriminate. }
  rewrite runState_bind, runState_fill. cbn [cutTracks trackCounter].
  rewrite runState_bind. cbn [ret Monad_state runState].
  rewrite (tracksPassPiPID_nil self Hcut). cbn [negb].
  rewrite runState_bind, runState_fill. cbn [ret Monad_state runState].
  eexists. reflexivity.
Qed.

(** ** The theorems at concrete inputs *)

Lemma Rpower_1_l (y : R) : Rpower 1 y = 1.
Proof. unfold Rpower. now rewrite ln_1, Rmult_0_r, exp_0. Qed.

Lemma trackPassesCuts_dca_stage_witness :
  let track := displacedTrack 1 0.0625 in
  0 < Track.pt track
  /\ Rabs (Track.dcaXY track)
     > 0.0182 + 0.0350 / Rpower (Track.pt track) 1.01
  /\ runState (trackPassesCuts defaults pseudorapidity track) []
     = (false, [] ++ counterFills 3).
Proof.
  cbv zeta.
  assert (Hpt : 0 < Track.pt (displacedTrack 1 0.0625)) by (simpl; lra).
  assert (Hxy : Rabs (Track.dcaXY (displacedTrack 1 0.0625))
                > 0.0182
                  + 0.0350 / Rpower (Track.pt (displacedTrack 1 0.0625))
                                    1.01).
  { simpl. rewrite Rpower_1_l, Rabs_pos_eq; lra. }
  split; [exact Hpt|]. split; [exact Hxy|].
  apply (proj1 (trackPassesCuts_dca_stage defaults pseudorapidity
                  (displacedTrack 1 0.0625) []
                  eq_refl eq_refl eq_refl (or_introl eq_refl)) Hpt).
  right. exact Hxy.
Defined.

Lemma getPhiCharge_charge_roles_witness :
  let tPos := sampleTrack 1 1 0 0 0 in
  let tNeg := sampleTrack (-1) 0 1 0 0 in
  let vPos := samplePion 1 0 0 in
  let vNeg := samplePion 0 1 0 in
  getPhiCharge [tPos; tNeg] [vPos; vNeg]
  = Some (deltaPhi (vPos + vNeg)%vec (vPos - vNeg)%vec)
  /\ getPhiCharge [tNeg; tPos] [vNeg; vPos]
     = Some (deltaPhi (vPos + vNeg)%vec (vPos - vNeg)%vec)
  /\ (forall (shuffle1 shuffle2 : Z -> list nat -> list nat)
             (seed1 seed2 : Z),
        snd (decayAngles shuffle1 seed1 [tPos; tNeg] [vPos; vNeg])
        = snd (decayAngles shuffle2 seed2 [tPos; tNeg] [vPos; vNeg])).
Proof.
  cbv zeta.
  apply (getPhiCharge_charge_roles (sampleTrack 1 1 0 0 0)
                                   (sampleTrack (-1) 0 1 0 0)
                                   (samplePion 1 0 0) (samplePion 0 1 0)).
  - reflexivity.
  - reflexivity.
Defined.

Lemma reconstructSystem_permutation_witness :
  let l := [samplePion 1 0 0; samplePion 0 1 0] in
  let l' := [samplePion 0 1 0; samplePion 1 0 0] in
  Permutation l l'
  /\ PxPyPzMVector.M (reconstructSystem l)
     = PxPyPzMVector.M (reconstructSystem l')
  /\ PxPyPzMVector.Pt (reconstructSystem l)
     = PxPyPzMVector.Pt (reconstructSystem l')
  /\ PxPyPzMVector.Rapidity (reconstructSystem l)
     = PxPyPzMVector.Rapidity (reconstructSystem l').
Proof.
  cbv zeta. split.
  - apply perm_swap.
  - apply (reconstructSystem_permutation
             [samplePion 1 0 0; samplePion 0 1 0]
             [samplePion 0 1 0; samplePion 1 0 0]).
    apply perm_swap.
Defined.

Lemma collisionPassesCuts_sample :
  collisionPassesCuts defaults (sampleCollision 0 0 0 0) = true.
Proof.
  unfold collisionPassesCuts; simpl. rewrite Rabs_R0.
  destruct (gtb_reflect 0 10.0); [lra | reflexivity].
Qed.

Lemma empty_selection_passes_PID_gate_witness :
  / 2 ^ 537 <= tracksTpcNSigmaPiCut defaults
  /\ tracksPassPiPID defaults [] = true
  /\ exists registry',
       runState (processRecoSelection defaults pseudorapidity 0.13957
                   (sampleCollision 0 0 0 0) [secondaryTrack]) []
       = (Some {| tags := eventTagging defaults (sampleCollision 0 0 0 0);
                  selected := {| trackCounter := 0;
                                 cutTracks := [];
                                 cutTracks4Vecs := [] |} |},
          registry' ++ [(hSelectionCounter, [6; 2])]).
Proof.
  assert (Hcut : / 2 ^ 537 <= tracksTpcNSigmaPiCut defaults).
  { cbn [defaults tracksTpcNSigmaPiCut].
    assert (H : 1 < 2 ^ 537) by (apply Rlt_pow_R1; [lra | lia]).
    set (p := 2 ^ 537) in *.
    assert (Hinv : / p < / 1) by (apply Rinv_lt_contravar; lra).
    rewrite Rinv_1 in Hinv. lra. }
  destruct (empty_selection_passes_PID_gate defaults pseudorapidity 0.13957
              (sampleCollision 0 0 0 0) [secondaryTrack] [] Hcut)
    as [Hnil Hrun].
  split; [exact Hcut|]. split; [exact Hnil|].
  apply Hrun.
  - exact collisionPassesCuts_sample.
  - intros track r [<- | []]. reflexivity.
Defined.

(** * Further properties of the task *)

(** ** The registry is only appended to *)

Lemma appends_ret {A : Type} (a : A) :
  Appends (ret a : state HistogramRegistry A).
Proof. intros registry. unfold fillsOf; simpl. now rewrite app_nil_r. Qed.

Lemma appends_fill (name : string) (values : list R) :
  Appends (registry_fill name values).
Proof. intros registry. reflexivity. Qed.

Lemma appends_bind {A B : Type} (c : state HistogramRegistry A)
    (f : A -> state HistogramRegistry B) :
  Appends c -> (forall a, Appends (f a)) -> Appends (bind c f).
Proof.
  intros Hc Hf registry. pose proof (Hc registry) as H1.
  unfold fillsOf in *. rewrite !runState_bind, H1.
  destruct (runState c []) as [a0 F]. cbn [fst snd].
  rewrite (Hf a0 (registry ++ F)), (Hf a0 F). unfold fillsOf.
  cbn [fst snd]. now rewrite app_assoc.
Qed.

Lemma runState_bind_pair {A B : Type} (c : state HistogramRegistry A)
    (f : A -> state HistogramRegistry B) (s s' : HistogramRegistry) (a : A) :
  runState c s = (a, s') -> runState (bind c f) s = runState (f a) s'.
Proof. intros H. now rewrite runState_bind, H. Qed.

Lemma fillsOf_bind {A B : Type} (c : state HistogramRegistry A)
    (f : A -> state HistogramRegistry B) :
  Appends c -> (forall a, Appends (f a)) ->
  fillsOf (bind c f) = fillsOf c ++ fillsOf (f (fst (runState c []))).
Proof.
  intros Hc Hf.
  pose proof (runState_bind_pair c f [] _ _ (Hc [])) as H.
  apply (f_equal snd) in H. rewrite (Hf _ ([] ++ fillsOf c)) in H.
  exact H.
Qed.

Lemma result_bind {A B : Type} (c : state HistogramRegistry A)
    (f : A -> state HistogramRegistry B) :
  Appends c -> (forall a, Appends (f a)) ->
  fst (runState (bind c f) [])
  = fst (runState (f (fst (runState c []))) []).
Proof.
  intros Hc Hf.
  pose proof (runState_bind_pair c f [] _ _ (Hc [])) as H.
  apply (f_equal fst) in H. rewrite (Hf _ ([] ++ fillsOf c)) in H.
  exact H.
Qed.

Lemma fillsOf_fill (name : string) (values : list R) :
  fillsOf (registry_fill name values) = [(name, values)].
Proof. reflexivity. Qed.

Lemma fillsOf_ret {A : Type} (a : A) :
  fillsOf (ret a : state HistogramRegistry A) = [].
Proof. reflexivity. Qed.

Lemma appends_trackPassesCuts (self : upcRhoAnalysis)
    (eta : R -> R -> R -> R) (track : Track.t) :
  Appends (trackPassesCuts self eta track).
Proof.
  intros registry. unfold fillsOf. now rewrite !trackPassesCuts_run.
Qed.

(** One step along the structure of a computation. *)
Ltac appends_step :=
  lazymatch goal with
  | |- Appends (registry_fill _ _) => apply appends_fill
  | |- Appends (trackPassesCuts _ _ _) => apply appends_trackPassesCuts
  | |- Appends (ret _) => apply appends_ret
  | |- Appends (bind _ _) => apply appends_bind; [| intros ?]
  | |- Appends (if ?b then _ else _) => destruct b
  | |- Appends (match ?x with _ => _ end) => destruct x
  end.

Ltac appends := repeat appends_step.

Lemma appends_trackLoop (self : upcRhoAnalysis) (eta : R -> R -> R -> R)
    (mass : R) (tracks : list Track.t) (acc : Selected) :
  Appends (trackLoop self eta mass tracks acc).
Proof.
  revert acc. induction tracks as [|track rest IH]; intros acc.
  - apply appends_ret.
  - cbn [trackLoop]. appends; apply IH.
Qed.

Lemma appends_processRecoSelection (self : upcRhoAnalysis)
    (eta : R -> R -> R -> R) (mass : R) (collision : Collision.t)
    (tracks : list Track.t) :
  Appends (processRecoSelection self eta mass collision tracks).
Proof.
  unfold processRecoSelection.
  repeat lazymatch goal with
         | |- Appends (bind (registry_fill _ _) _) =>
             apply appends_bind; [apply appends_fill | intros ?]
         end.
  destruct (negb (collisionPassesCuts self collision)); [apply appends_ret|].
  apply appends_bind; [apply appends_trackLoop | intros sel].
  appends.
Qed.

Lemma appends_fillPions (Eta : PxPyPzMVector.t -> R)
    (selection signs : string) (vec0 vec1 : PxPyPzMVector.t) :
  Appends (fillPions Eta selection signs vec0 vec1).
Proof. unfold fillPions. appends. Qed.

Lemma appends_fillRaw (signs : string) (v : SystemValues) :
  Appends (fillRaw signs v).
Proof. unfold fillRaw. appends. Qed.

Lemma appends_fillCut (zdc signs : string) (v : SystemValues)
    (phiRandom phiCharge : R) :
  Appends (fillCut zdc signs v phiRandom phiCharge).
Proof. unfold fillCut. cbv zeta. appends. Qed.

Lemma appends_fillTagged (tags : ZdcTags) (signs : string)
    (v : SystemValues) (phiRandom phiCharge : R) :
  Appends (fillTagged tags signs v phiRandom phiCharge).
Proof.
  unfold fillTagged.
  destruct (OnOn tags), (XnOn tags), (OnXn tags), (XnXn tags);
    lazymatch goal with
    | |- Appends (fillCut _ _ _ _ _) => apply appends_fillCut
    | |- _ => apply appends_ret
    end.
Qed.

Lemma appends_fillMultiPion (family : string) (v : SystemValues) :
  Appends (fillMultiPion family v).
Proof. unfold fillMultiPion. appends. Qed.

(** One step along [processRecoSystem]. *)
Ltac appends_system_step :=
  lazymatch goal with
  | |- Appends (fillPions _ _ _ _ _) => apply appends_fillPions
  | |- Appends (fillRaw _ _) => apply appends_fillRaw
  | |- Appends (fillCut _ _ _ _ _) => apply appends_fillCut
  | |- Appends (fillTagged _ _ _ _ _) => apply appends_fillTagged
  | |- Appends (fillMultiPion _ _) => apply appends_fillMultiPion
  | |- _ => appends_step
  end.

Lemma appends_processRecoSystem (self : upcRhoAnalysis)
    (shuffle : Z -> list nat -> list nat) (Eta : PxPyPzMVector.t -> R)
    (seed : Z) (candidate : Candidate) :
  Appends (processRecoSystem self shuffle Eta seed candidate).
Proof.
  unfold processRecoSystem. cbv zeta.
  generalize (double_to_int
                (tracksTotalCharge (cutTracks (selected candidate)))).
  intros totalCharge.
  repeat appends_system_step.
Qed.

(** ** The track loop *)

Lemma trackPassesCuts_result (self : upcRhoAnalysis)
    (eta : R -> R -> R -> R) (track : Track.t)
    (registry : HistogramRegistry) :
  fst (runState (trackPassesCuts self eta track) registry)
  = passesAllStages self eta track.
Proof. now rewrite trackPassesCuts_run. Qed.

Lemma trackLoop_run (self : upcRhoAnalysis) (eta : R -> R -> R -> R)
    (mass : R) (tracks : list Track.t) (acc : Selected)
    (registry : HistogramRegistry) :
  runState (trackLoop self eta mass tracks acc) registry
  = (selectMore mass acc (filter (passesAllStages self eta) tracks),
     registry ++ flat_map (trackFills self eta) tracks).
Proof.
  revert acc registry.
  induction tracks as [|track rest IH]; intros acc registry.
  - cbn [trackLoop filter flat_map]. unfold selectMore. cbn [List.length map].
    rewrite !app_nil_r, Z.add_0_r. now destruct acc.
  - cbn [trackLoop].
    repeat (rewrite runState_bind, runState_fill).
    rewrite runState_bind, trackPassesCuts_run. cbv zeta.
    cbn [filter flat_map]. unfold trackFills at 1.
    fold (passesAllStages self eta track).
    destruct (passesAllStages self eta track); cbn [negb].
    + repeat (rewrite runState_bind, runState_fill).
      rewrite IH. f_equal.
      * unfold selectMore. cbn [trackCounter cutTracks cutTracks4Vecs
                                List.length map].
        rewrite <- !app_assoc. cbn [app]. f_equal. lia.
      * rewrite <- !app_assoc. reflexivity.
    + rewrite IH. f_equal. rewrite app_nil_r, <- !app_assoc. reflexivity.
Qed.

Lemma filter_passes (self : upcRhoAnalysis) (eta : R -> R -> R -> R)
    (tracks : list Track.t) :
  filter (fun track => fst (runState (trackPassesCuts self eta track) []))
         tracks
  = filter (passesAllStages self eta) tracks.
Proof.
  apply filter_ext. intros track. apply trackPassesCuts_result.
Qed.

Lemma processRecoSelection_outcome (self : upcRhoAnalysis)
    (eta : R -> R -> R -> R) (MassPionCharged : R)
    (collision : Collision.t) (tracks : list Track.t)
    (registry : HistogramRegistry) :
  let kept := filter (passesAllStages self eta) tracks in
  fst (runState (processRecoSelection self eta MassPionCharged
                                      collision tracks) registry)
  = if collisionPassesCuts self collision && tracksPassPiPID self kept
    then Some {| tags := eventTagging self collision;
                 selected :=
                   {| trackCounter := Z.of_nat (List.length kept);
                      cutTracks := kept;
                      cutTracks4Vecs :=
                        map (pionVector MassPionCharged) kept |} |}
    else None.
Proof.
  cbv zeta.
  unfold processRecoSelection.
  repeat (rewrite runState_bind, runState_fill).
  destruct (collisionPassesCuts self collision); cbn [negb andb];
    [|reflexivity].
  rewrite runState_bind, trackLoop_run.
  rewrite runState_bind, runState_fill.
  unfold selectMore at 1 2. cbn [cutTracks trackCounter cutTracks4Vecs app].
  set (kept := filter (passesAllStages self eta) tracks).
  rewrite runState_bind.
  assert (Hgate : forall r : HistogramRegistry,
            fst (runState
                   (if negb (tracksPassPiPID self kept)
                    then ret None
                    else registry_fill hSelectionCounter [6; 2] ;;
                         ret (Some {| tags := eventTagging self collision;
                                      selected :=
                                        selectMore MassPionCharged
                                          {| trackCounter := 0;
                                             cutTracks := [];
                                             cutTracks4Vecs := [] |}
                                          kept |})) r)
            = if tracksPassPiPID self kept
              then Some {| tags := eventTagging self collision;
                           selected :=
                             {| trackCounter := Z.of_nat (List.length kept);
                                cutTracks := kept;
                                cutTracks4Vecs :=
                                  map (pionVector MassPionCharged) kept |} |}
              else None).
  { intros r. destruct (tracksPassPiPID self kept); reflexivity. }
  destruct kept as [|t0 [|t1 [|t2 rest]]];
    repeat (rewrite runState_bind, runState_fill); apply Hgate.
Qed.

(** X2.  The selection part of [processReco] as a function of the event:
    it goes on past the PID gate exactly when the collision passes its cuts
    and the tracks that pass [trackPassesCuts] pass the joint PID cut; it
    then carries the ZDC tags of the collision, those tracks in input order,
    their number, and for each its momentum with the pion mass. *)
Theorem processRecoSelection_result (self : upcRhoAnalysis)
    (eta : R -> R -> R -> R) (MassPionCharged : R)
    (collision : Collision.t) (tracks : list Track.t)
    (registry : HistogramRegistry) :
  let kept :=
    filter (fun track => fst (runState (trackPassesCuts self eta track) []))
           tracks in
  fst (runState (processRecoSelection self eta MassPionCharged
                                      collision tracks) registry)
  = if collisionPassesCuts self collision && tracksPassPiPID self kept
    then Some {| tags := eventTagging self collision;
                 selected :=
                   {| trackCounter := Z.of_nat (List.length kept);
                      cutTracks := kept;
                      cutTracks4Vecs :=
                        map (pionVector MassPionCharged) kept |} |}
    else None.
Proof.
  cbv zeta. rewrite filter_passes.
  apply processRecoSelection_outcome.
Qed.

(** ** The selection counter as a cut flow *)

Lemma Req_bool_IZR (a b : Z) : Req_bool (IZR a) (IZR b) = Z.eqb a b.
Proof.
  unfold Req_bool. destruct (Req_dec_T (IZR a) (IZR b)) as [H | H].
  - apply eq_IZR in H. symmetry. now apply Z.eqb_eq.
  - symmetry. apply Z.eqb_neq. intros ->. now apply H.
Qed.

Lemma binCount_app (k : Z) (r1 r2 : HistogramRegistry) :
  binCount k (r1 ++ r2) = (binCount k r1 + binCount k r2)%nat.
Proof. unfold binCount. now rewrite filter_app, length_app. Qed.

Lemma binCount_seq (k a n : nat) :
  binCount (Z.of_nat k)
           (map (fun j => (hSelectionCounter, [IZR (Z.of_nat j)])) (seq a n))
  = if Nat.leb a k && Nat.ltb k (a + n) then 1%nat else 0%nat.
Proof.
  revert a. induction n as [|n IH]; intros a.
  - cbn [seq map]. replace (a + 0)%nat with a by lia.
    destruct (Nat.leb_spec a k), (Nat.ltb_spec k a); try reflexivity; lia.
  - cbn [seq map]. change (?x :: ?l) with ([x] ++ l).
    rewrite binCount_app, IH.
    unfold binCount. cbn [filter fst snd]. rewrite String.eqb_refl.
    rewrite Req_bool_IZR. cbn [andb].
    destruct (Z.eqb_spec (Z.of_nat a) (Z.of_nat k)) as [E | E];
      destruct (Nat.leb_spec a k), (Nat.ltb_spec k (a + S n)),
               (Nat.leb_spec (S a) k), (Nat.ltb_spec k (S a + n));
      cbn; try reflexivity; lia.
Qed.

Lemma binCount_counterFills (k n : nat) :
  binCount (Z.of_nat k) (counterFills n)
  = if Nat.leb 1 k && Nat.leb k n then 1%nat else 0%nat.
Proof.
  unfold counterFills. rewrite binCount_seq.
  destruct (Nat.leb_spec 1 k), (Nat.ltb_spec k (1 + n)), (Nat.leb_spec k n);
    cbn; try reflexivity; lia.
Qed.

Lemma binCount_trackFills (self : upcRhoAnalysis)
    (eta : R -> R -> R -> R) (k : nat) (track : Track.t) :
  binCount (Z.of_nat k) (trackFills self eta track)
  = if Nat.leb k (stagesPassed (stages self eta) track)
    then 1%nat else 0%nat.
Proof.
  unfold trackFills. rewrite !binCount_app, binCount_counterFills.
  set (n := stagesPassed (stages self eta) track).
  assert (H0 : Req_bool 0 (IZR (Z.of_nat k)) = Z.eqb 0 (Z.of_nat k))
    by apply (Req_bool_IZR 0 (Z.of_nat k)).
  destruct (passesAllStages self eta track);
    unfold binCount; cbn [filter fst snd String.eqb Ascii.eqb Bool.eqb
                          hSelectionCounter andb];
    rewrite H0;
    destruct (Z.eqb_spec 0 (Z.of_nat k));
    destruct (Nat.leb_spec 1 k), (Nat.leb_spec k n);
    cbn; try reflexivity; lia.
Qed.

Lemma binCount_flat_map (self : upcRhoAnalysis) (eta : R -> R -> R -> R)
    (k : nat) (tracks : list Track.t) :
  binCount (Z.of_nat k) (flat_map (trackFills self eta) tracks)
  = reachStage self eta k tracks.
Proof.
  unfold reachStage. induction tracks as [|track rest IH].
  - reflexivity.
  - cbn [flat_map filter]. rewrite binCount_app, binCount_trackFills, IH.
    destruct (Nat.leb k (stagesPassed (stages self eta) track));
      reflexivity.
Qed.

Lemma reachStage_antitone (self : upcRhoAnalysis) (eta : R -> R -> R -> R)
    (k : nat) (tracks : list Track.t) :
  (reachStage self eta (S k) tracks <= reachStage self eta k tracks)%nat.
Proof.
  unfold reachStage. induction tracks as [|track rest IH]; [reflexivity|].
  cbn [filter].
  destruct (Nat.leb_spec (S k) (stagesPassed (stages self eta) track)),
           (Nat.leb_spec k (stagesPassed (stages self eta) track));
    cbn [List.length]; lia.
Qed.

(** X3.  Over the track loop of [processReco] the selection counter is the
    cut flow of [trackPassesCuts]: bin 0 gets one fill per input track, bin
    [k] one fill per track that passes at least the first [k] stages, and so
    bin 5 one fill per selected track; the bin contents never increase from
    one bin to the next. *)
Theorem trackLoop_selection_counter (self : upcRhoAnalysis)
    (eta : R -> R -> R -> R) (MassPionCharged : R)
    (tracks : list Track.t) (acc : Selected) :
  let fills := fillsOf (trackLoop self eta MassPionCharged tracks acc) in
  (forall k : nat,
     binCount (Z.of_nat k) fills = reachStage self eta k tracks)
  /\ binCount 0 fills = List.length tracks
  /\ binCount 5 fills
     = List.length
         (filter (fun track =>
                    fst (runState (trackPassesCuts self eta track) []))
                 tracks)
  /\ (forall k : nat,
        (binCount (Z.of_nat (S k)) fills <= binCount (Z.of_nat k) fills)%nat).
Proof.
  cbv zeta. unfold fillsOf. rewrite trackLoop_run. cbn [snd app].
  assert (Hk : forall k : nat,
            binCount (Z.of_nat k) (flat_map (trackFills self eta) tracks)
            = reachStage self eta k tracks)
    by (intros k; apply binCount_flat_map).
  split; [exact Hk|]. split; [|split].
  - etransitivity; [exact (Hk 0%nat)|]. unfold reachStage. cbn [Nat.leb].
    clear. induction tracks as [|t l IH]; [reflexivity|].
    cbn [filter List.length]. now rewrite IH.
  - etransitivity; [exact (Hk 5%nat)|].
    rewrite filter_passes. unfold reachStage. f_equal.
    apply filter_ext. intros track. unfold passesAllStages.
    pose proof (stagesPassed_le (stages self eta) track) as Hle.
    change (List.length (stages self eta)) with 5%nat in Hle.
    destruct (Nat.leb_spec 5 (stagesPassed (stages self eta) track)),
             (Nat.eqb_spec (stagesPassed (stages self eta) track) 5);
      try reflexivity; lia.
  - intros k. rewrite !Hk. apply reachStage_antitone.
Qed.

(** ** The total charge *)

Lemma tracksTotalCharge_fold (tracks : list Track.t) (charge : R) :
  fold_left (fun charge track => charge + IZR (Track.sign track))
            tracks charge
  = charge + IZR (sumOfSigns tracks).
Proof.
  revert charge. induction tracks as [|track rest IH]; intros charge.
  - simpl. lra.
  - cbn [fold_left sumOfSigns fold_right]. rewrite IH.
    fold (sumOfSigns rest). rewrite plus_IZR. lra.
Qed.

Lemma tracksTotalCharge_sum (tracks : list Track.t) :
  tracksTotalCharge tracks = IZR (sumOfSigns tracks).
Proof. unfold tracksTotalCharge. rewrite tracksTotalCharge_fold. lra. Qed.

Lemma double_to_int_IZR (z : Z) : double_to_int (IZR z) = z.
Proof.
  unfold double_to_int. destruct (ltb_reflect (IZR z) 0).
  - assert (H : Int_part (IZR (- z)) = (- z)%Z).
    { symmetry. apply Int_part_spec. split; [lra | apply Rle_refl]. }
    rewrite <- opp_IZR, H. lia.
  - symmetry. apply Int_part_spec. split; [lra | apply Rle_refl].
Qed.

Lemma sumOfSigns_permutation (l l' : list Track.t) :
  Permutation l l' -> sumOfSigns l = sumOfSigns l'.
Proof.
  assert (Hcons : forall t l,
            sumOfSigns (t :: l) = (Track.sign t + sumOfSigns l)%Z)
    by reflexivity.
  induction 1 as [| t l l' _ IH | t u l | l l' l'' _ IH1 _ IH2];
    rewrite ?Hcons; lia.
Qed.

(** X4.  The total charge [processReco] switches on is the exact sum of the
    charge signs of the selected tracks: the accumulation in [double] and
    the conversion to [int] lose nothing, and the order of the tracks does
    not matter. *)
Theorem totalCharge_exact :
  (forall tracks : list Track.t,
     double_to_int (tracksTotalCharge tracks) = sumOfSigns tracks)
  /\ (forall tracks : list Track.t,
        Req_bool (tracksTotalCharge tracks) 0
        = Z.eqb (sumOfSigns tracks) 0)
  /\ (forall l l' : list Track.t,
        Permutation l l' -> tracksTotalCharge l = tracksTotalCharge l').
Proof.
  repeat split.
  - intros tracks. now rewrite tracksTotalCharge_sum, double_to_int_IZR.
  - intros tracks. rewrite tracksTotalCharge_sum.
    apply (Req_bool_IZR (sumOfSigns tracks) 0).
  - intros l l' H. rewrite !tracksTotalCharge_sum.
    now rewrite (sumOfSigns_permutation l l' H).
Qed.

(** X5.  For two tracks of unit charge the total charge is 0, 2 or -2, so
    the [default] arm of the charge switch is never taken; it is 0 exactly
    for an unlike-sign pair, 2 for two positive and -2 for two negative
    tracks. *)
Theorem totalCharge_of_pair (t0 t1 : Track.t) :
  Track.sign t0 = 1%Z \/ Track.sign t0 = (-1)%Z ->
  Track.sign t1 = 1%Z \/ Track.sign t1 = (-1)%Z ->
  let totalCharge := double_to_int (tracksTotalCharge [t0; t1]) in
  (totalCharge = 0%Z \/ totalCharge = 2%Z \/ totalCharge = (-2)%Z)
  /\ (totalCharge = 0%Z <-> Track.sign t0 <> Track.sign t1)
  /\ (totalCharge = 2%Z <-> Track.sign t0 = 1%Z /\ Track.sign t1 = 1%Z)
  /\ (totalCharge = (-2)%Z
      <-> Track.sign t0 = (-1)%Z /\ Track.sign t1 = (-1)%Z).
Proof.
  intros H0 H1. cbv zeta.
  rewrite tracksTotalCharge_sum, double_to_int_IZR.
  cbn [sumOfSigns fold_right]. lia.
Qed.

Lemma totalCharge_of_pair_witness :
  let t0 := sampleTrack 1 1 0 0 0 in
  let t1 := sampleTrack (-1) 0 1 0 0 in
  let totalCharge := double_to_int (tracksTotalCharge [t0; t1]) in
  (totalCharge = 0%Z \/ totalCharge = 2%Z \/ totalCharge = (-2)%Z)
  /\ (totalCharge = 0%Z <-> Track.sign t0 <> Track.sign t1)
  /\ (totalCharge = 2%Z <-> Track.sign t0 = 1%Z /\ Track.sign t1 = 1%Z)
  /\ (totalCharge = (-2)%Z
      <-> Track.sign t0 = (-1)%Z /\ Track.sign t1 = (-1)%Z).
Proof.
  cbv zeta.
  apply (totalCharge_of_pair (sampleTrack 1 1 0 0 0)
                             (sampleTrack (-1) 0 1 0 0)).
  - left. reflexivity.
  - right. reflexivity.
Defined.

(** ** More on the wrapped azimuthal difference *)

(** X6.  [deltaPhi] is antisymmetric: exchanging its arguments negates the
    result, end points included. *)
Theorem deltaPhi_antisymmetric (p1 p2 : PxPyPzMVector.t) :
  deltaPhi p2 p1 = - deltaPhi p1 p2.
Proof.
  unfold deltaPhi. pose proof PI_RGT_0. cmp_cases; lra.
Qed.

Lemma cos_wrap (x : R) :
  cos (x - 2 * PI) = cos x /\ cos (x + 2 * PI) = cos x
  /\ sin (x - 2 * PI) = sin x /\ sin (x + 2 * PI) = sin x.
Proof.
  rewrite cos_minus, cos_plus, sin_minus, sin_plus, cos_2PI, sin_2PI.
  repeat split; lra.
Qed.

(** X7.  [deltaPhi] returns a value of the closed interval from [-PI] to
    [PI] that differs from the raw difference of the two azimuthal angles by
    0 or by one turn, so its cosine and sine are those of the raw
    difference. *)
Theorem deltaPhi_wraps_once (p1 p2 : PxPyPzMVector.t) :
  let dPhi := PxPyPzMVector.Phi p1 - PxPyPzMVector.Phi p2 in
  - PI <= deltaPhi p1 p2 <= PI
  /\ (deltaPhi p1 p2 = dPhi
      \/ deltaPhi p1 p2 = dPhi - 2 * PI
      \/ deltaPhi p1 p2 = dPhi + 2 * PI)
  /\ (- PI <= dPhi <= PI -> deltaPhi p1 p2 = dPhi)
  /\ cos (deltaPhi p1 p2) = cos dPhi
  /\ sin (deltaPhi p1 p2) = sin dPhi.
Proof.
  cbv zeta.
  pose proof (deltaPhi_closed_range p1 p2) as Hr.
  pose proof (deltaPhi_single_wrap p1 p2) as Hw. cbv zeta in Hw.
  pose proof (cos_wrap (PxPyPzMVector.Phi p1 - PxPyPzMVector.Phi p2))
    as (Hc1 & Hc2 & Hs1 & Hs2).
  split; [exact Hr|]. split; [exact Hw|]. split.
  - intros Hin. unfold deltaPhi. cmp_cases; lra.
  - destruct Hw as [-> | [-> | ->]]; split; congruence.
Qed.

(** ** Exchanging the roles of the two tracks *)

Lemma atan2_opp (y x : R) :
  x <> 0 \/ y <> 0 ->
  atan2 (- y) (- x) = atan2 y x + PI \/ atan2 (- y) (- x) = atan2 y x - PI.
Proof.
  intros Hnz. pose proof PI_RGT_0 as Hpi. unfold atan2.
  destruct (Req_dec x 0) as [Hx | Hx].
  - subst x. assert (Hy : y <> 0) by (destruct Hnz; [lra | assumption]).
    cmp_cases; first [left; lra | right; lra | exfalso; lra].
  - replace (- y / - x) with (y / x) by (field; exact Hx).
    cmp_cases; first [left; lra | right; lra | exfalso; lra].
Qed.

Lemma trig_half_turn (x : R) :
  cos (x + PI) = - cos x /\ sin (x + PI) = - sin x
  /\ cos (x - PI) = - cos x /\ sin (x - PI) = - sin x.
Proof.
  rewrite neg_cos, neg_sin, cos_minus, sin_minus, cos_PI, sin_PI.
  repeat split; lra.
Qed.

Lemma deltaPhi_role_swap (pOne pTwo : PxPyPzMVector.t) :
  PxPyPzMVector.Px pOne <> PxPyPzMVector.Px pTwo
  \/ PxPyPzMVector.Py pOne <> PxPyPzMVector.Py pTwo ->
  let phi := deltaPhi (pOne + pTwo)%vec (pOne - pTwo)%vec in
  let phi' := deltaPhi (pTwo + pOne)%vec (pTwo - pOne)%vec in
  phi' = phi + PI \/ phi' = phi - PI.
Proof.
  intros Hnz. cbv zeta. unfold deltaPhi, PxPyPzMVector.Phi.
  rewrite !VectorFacts.fX_add, !VectorFacts.fY_add,
          !VectorFacts.fX_sub, !VectorFacts.fY_sub.
  unfold PxPyPzMVector.Px, PxPyPzMVector.Py in Hnz.
  set (x1 := PxPyPzMVector.fX pOne) in *.
  set (y1 := PxPyPzMVector.fY pOne) in *.
  set (x2 := PxPyPzMVector.fX pTwo) in *.
  set (y2 := PxPyPzMVector.fY pTwo) in *.
  replace (x2 + x1) with (x1 + x2) by lra.
  replace (y2 + y1) with (y1 + y2) by lra.
  replace (x2 - x1) with (- (x1 - x2)) by lra.
  replace (y2 - y1) with (- (y1 - y2)) by lra.
  pose proof (atan2_range (y1 + y2) (x1 + x2)) as Ha.
  pose proof (atan2_range (y1 - y2) (x1 - x2)) as Hb.
  pose proof (atan2_range (- (y1 - y2)) (- (x1 - x2))) as Hb'.
  assert (Hopp : x1 - x2 <> 0 \/ y1 - y2 <> 0)
    by (destruct Hnz; [left | right]; lra).
  apply atan2_opp in Hopp.
  set (a := atan2 (y1 + y2) (x1 + x2)) in *.
  set (b := atan2 (y1 - y2) (x1 - x2)) in *.
  set (b' := atan2 (- (y1 - y2)) (- (x1 - x2))) in *.
  pose proof PI_RGT_0 as Hpi.
  destruct Hopp as [Hopp | Hopp]; cmp_cases;
    first [left; lra | right; lra | exfalso; lra].
Qed.

(** X8.  Exchanging which of the two four-vectors plays the role of [pOne]
    turns the decay angle by half a turn, provided the two transverse
    momenta differ: the angle changes by [PI] or [-PI], and its cosine and
    sine change sign.  So the charge-based angles of a pair and of the pair
    with the charges exchanged differ by half a turn. *)
Theorem decay_angle_role_swap (tPos tNeg : Track.t)
    (vec0 vec1 : PxPyPzMVector.t) :
  PxPyPzMVector.Px vec0 <> PxPyPzMVector.Px vec1
  \/ PxPyPzMVector.Py vec0 <> PxPyPzMVector.Py vec1 ->
  (Track.sign tPos > 0)%Z ->
  (Track.sign tNeg <= 0)%Z ->
  exists phi phi' : R,
    getPhiCharge [tPos; tNeg] [vec0; vec1] = Some phi
    /\ getPhiCharge [tNeg; tPos] [vec0; vec1] = Some phi'
    /\ (phi' = phi + PI \/ phi' = phi - PI)
    /\ cos phi' = - cos phi
    /\ sin phi' = - sin phi.
Proof.
  intros Hnz Hpos Hneg.
  exists (deltaPhi (vec0 + vec1)%vec (vec0 - vec1)%vec),
         (deltaPhi (vec1 + vec0)%vec (vec1 - vec0)%vec).
  assert (Hp : (Track.sign tPos >? 0)%Z = true) by (apply Z.gtb_lt; lia).
  assert (Hn : (Track.sign tNeg >? 0)%Z = false).
  { destruct (Track.sign tNeg >? 0)%Z eqn:E; [|reflexivity].
    apply Z.gtb_lt in E. lia. }
  unfold getPhiCharge; simpl. rewrite Hp, Hn.
  split; [reflexivity|]. split; [reflexivity|].
  pose proof (deltaPhi_role_swap vec0 vec1 Hnz) as Hswap. cbv zeta in Hswap.
  split; [exact Hswap|].
  pose proof (trig_half_turn (deltaPhi (vec0 + vec1)%vec (vec0 - vec1)%vec))
    as (Hc1 & Hs1 & Hc2 & Hs2).
  destruct Hswap as [-> | ->]; split; assumption.
Qed.

Lemma decay_angle_role_swap_witness :
  exists phi phi' : R,
    getPhiCharge [sampleTrack 1 1 0 0 0; sampleTrack (-1) 0 1 0 0]
                 [samplePion 1 0 0; samplePion 0 1 0] = Some phi
    /\ getPhiCharge [sampleTrack (-1) 0 1 0 0; sampleTrack 1 1 0 0 0]
                    [samplePion 1 0 0; samplePion 0 1 0] = Some phi'
    /\ (phi' = phi + PI \/ phi' = phi - PI)
    /\ cos phi' = - cos phi
    /\ sin phi' = - sin phi.
Proof.
  apply (decay_angle_role_swap (sampleTrack 1 1 0 0 0)
                               (sampleTrack (-1) 0 1 0 0)
                               (samplePion 1 0 0) (samplePion 0 1 0)).
  - left. simpl. lra.
  - reflexivity.
  - simpl. lia.
Defined.

(** X9.  Whenever the shuffle returns the two indices in some order,
    [getPhiRandom] on two four-vectors returns the decay angle of one of the
    two role assignments; four-vectors after the second are ignored, and
    with fewer than two four-vectors there is no result. *)
Theorem getPhiRandom_outcomes (shuffle : Z -> list nat -> list nat)
    (seed : Z) :
  Permutation [0%nat; 1%nat] (shuffle seed [0%nat; 1%nat]) ->
  (forall vec0 vec1 : PxPyPzMVector.t,
     getPhiRandom shuffle seed [vec0; vec1]
     = Some (deltaPhi (vec0 + vec1)%vec (vec0 - vec1)%vec)
     \/ getPhiRandom shuffle seed [vec0; vec1]
        = Some (deltaPhi (vec1 + vec0)%vec (vec1 - vec0)%vec))
  /\ (forall (vec0 vec1 : PxPyPzMVector.t) (rest : list PxPyPzMVector.t),
        getPhiRandom shuffle seed (vec0 :: vec1 :: rest)
        = getPhiRandom shuffle seed [vec0; vec1])
  /\ (forall vecs : list PxPyPzMVector.t,
        (List.length vecs < 2)%nat -> getPhiRandom shuffle seed vecs = None).
Proof.
  intros Hperm. apply Permutation_length_2_inv in Hperm.
  unfold getPhiRandom.
  destruct Hperm as [-> | ->]; cbn [nth_error].
  - repeat split; intros; auto.
    destruct vecs as [|v0 [|v1 rest]]; cbn in *; try reflexivity; lia.
  - repeat split; intros; auto.
    destruct vecs as [|v0 [|v1 rest]]; cbn in *; try reflexivity; lia.
Qed.

Lemma getPhiRandom_outcomes_witness :
  let shuffle := fun (_ : Z) (indices : list nat) => rev indices in
  (forall vec0 vec1 : PxPyPzMVector.t,
     getPhiRandom shuffle 0 [vec0; vec1]
     = Some (deltaPhi (vec0 + vec1)%vec (vec0 - vec1)%vec)
     \/ getPhiRandom shuffle 0 [vec0; vec1]
        = Some (deltaPhi (vec1 + vec0)%vec (vec1 - vec0)%vec))
  /\ (forall (vec0 vec1 : PxPyPzMVector.t) (rest : list PxPyPzMVector.t),
        getPhiRandom shuffle 0 (vec0 :: vec1 :: rest)
        = getPhiRandom shuffle 0 [vec0; vec1])
  /\ (forall vecs : list PxPyPzMVector.t,
        (List.length vecs < 2)%nat -> getPhiRandom shuffle 0 vecs = None).
Proof.
  cbv zeta.
  apply (getPhiRandom_outcomes (fun _ indices => rev indices) 0%Z).
  apply perm_swap.
Defined.

(** ** More on the reconstructed system *)





(** ** Routing of an event past the PID gate *)

Local Open Scope string_scope.

(** X14.  Past the PID gate an event whose number of selected tracks is not
    2 fills only the four [system/4pi] histograms when it has 4 tracks of
    total charge 0, only the four [system/6pi] histograms when it has 6
    tracks of total charge 0, and nothing otherwise: an empty selection,
    which passes the gate, adds nothing. *)
Theorem processRecoSystem_multi_pion (self : upcRhoAnalysis)
    (shuffle : Z -> list nat -> list nat) (Eta : PxPyPzMVector.t -> R)
    (seed : Z) (candidate : Candidate) :
  let tracks := cutTracks (selected candidate) in
  let system := reconstructSystem (cutTracks4Vecs (selected candidate)) in
  let family := fun name : string =>
    [ (String.append "system/" (String.append name "/hM"),
       [PxPyPzMVector.M system]);
      (String.append "system/" (String.append name "/hPt"),
       [PxPyPzMVector.Pt system]);
      (String.append "system/" (String.append name "/hPtVsM"),
       [PxPyPzMVector.M system; PxPyPzMVector.Pt system]);
      (String.append "system/" (String.append name "/hY"),
       [PxPyPzMVector.Rapidity system]) ] in
  List.length tracks <> 2%nat ->
  fillsOf (processRecoSystem self shuffle Eta seed candidate)
  = if Nat.eqb (List.length tracks) 4 && Z.eqb (sumOfSigns tracks) 0
    then family "4pi"
    else if Nat.eqb (List.length tracks) 6 && Z.eqb (sumOfSigns tracks) 0
    then family "6pi"
    else [].
Proof.
  cbv zeta. intros Hn. unfold processRecoSystem. cbv zeta.
  set (tracks := cutTracks (selected candidate)) in *.
  assert (H2 : (Z.of_nat (List.length tracks) =? 2)%Z = false)
    by (apply Z.eqb_neq; lia).
  assert (H4 : (Z.of_nat (List.length tracks) =? 4)%Z
               = Nat.eqb (List.length tracks) 4).
  { destruct (Nat.eqb_spec (List.length tracks) 4) as [-> | H];
      [reflexivity | apply Z.eqb_neq; lia]. }
  assert (H6 : (Z.of_nat (List.length tracks) =? 6)%Z
               = Nat.eqb (List.length tracks) 6).
  { destruct (Nat.eqb_spec (List.length tracks) 6) as [-> | H];
      [reflexivity | apply Z.eqb_neq; lia]. }
  assert (Hq : Req_bool (tracksTotalCharge tracks) 0
               = Z.eqb (sumOfSigns tracks) 0).
  { rewrite tracksTotalCharge_sum.
    apply (Req_bool_IZR (sumOfSigns tracks) 0). }
  rewrite H2, H4, H6, Hq.
  destruct (Nat.eqb (List.length tracks) 4), (Nat.eqb (List.length tracks) 6),
           (Z.eqb (sumOfSigns tracks) 0); reflexivity.
Qed.

Lemma processRecoSystem_multi_pion_witness :
  fillsOf (processRecoSystem defaults (fun _ indices => indices)
             (fun _ => 0) 0
             {| tags := eventTagging defaults (sampleCollision 0 0 0 0);
                selected := {| trackCounter := 0; cutTracks := [];
                               cutTracks4Vecs := [] |} |})
  = [].
Proof.
  apply (processRecoSystem_multi_pion defaults (fun _ indices => indices)
           (fun _ => 0) 0%Z
           {| tags := eventTagging defaults (sampleCollision 0 0 0 0);
              selected := {| trackCounter := 0; cutTracks := [];
                             cutTracks4Vecs := [] |} |}).
  simpl. lia.
Defined.

Local Close Scope string_scope.

Lemma tagCount_le_1 (self : upcRhoAnalysis) (c : Collision.t) :
  (tagCount (eventTagging self c) <= 1)%nat.
Proof.
  unfold tagCount, eventTagging; simpl.
  destruct (ltb_reflect (Collision.energyCommonZNA c)
                        (ZNcommonEnergyCut self));
    destruct (gtb_reflect (Collision.energyCommonZNA c)
                          (ZNcommonEnergyCut self));
    destruct (ltb_reflect (Collision.energyCommonZNC c)
                          (ZNcommonEnergyCut self));
    destruct (gtb_reflect (Collision.energyCommonZNC c)
                          (ZNcommonEnergyCut self));
    try lra;
    destruct (Rabs (Collision.timeZNA c) <? ZNtimeCut self);
    destruct (Rabs (Collision.timeZNC c) <? ZNtimeCut self);
    simpl; lia.
Qed.

Lemma getPhiRandom_some (shuffle : Z -> list nat -> list nat) (seed : Z)
    (vec0 vec1 : PxPyPzMVector.t) :
  Permutation [0%nat; 1%nat] (shuffle seed [0%nat; 1%nat]) ->
  exists phiRandom : R,
    getPhiRandom shuffle seed [vec0; vec1] = Some phiRandom.
Proof.
  intros Hperm. apply Permutation_length_2_inv in Hperm.
  unfold getPhiRandom. destruct Hperm as [-> | ->]; cbn [nth_error];
    eexists; reflexivity.
Qed.

(** Bring [processRecoSystem] on a pair of unit-charge tracks to a closed
    computation: name the outcome of the random pairing, fix the two signs
    and walk down the chain of tags. *)
Ltac pair_cases Hs0 Hs1 Hperm tg :=
  let phiRandom := fresh "phiRandom" in
  let Hphi := fresh "Hphi" in
  cbv zeta; unfold processRecoSystem, pairCandidate;
  cbn [tags selected cutTracks cutTracks4Vecs List.length nth_error];
  change (Z.of_nat 2 =? 2)%Z with true;
  rewrite tracksTotalCharge_sum, double_to_int_IZR;
  cbn [sumOfSigns fold_right];
  lazymatch goal with
  | |- context [getPhiRandom ?sh ?sd [?v0; ?v1]] =>
      destruct (getPhiRandom_some sh sd v0 v1 Hperm) as [phiRandom Hphi];
      rewrite Hphi
  end;
  unfold getPhiCharge; cbn [nth_error];
  destruct Hs0 as [Hs0 | Hs0], Hs1 as [Hs1 | Hs1]; rewrite Hs0, Hs1;
  destruct tg as [xx oo xo ox]; cbn [OnOn XnOn OnXn XnXn] in *.

Local Open Scope string_scope.

(** X15.  A pair of unit-charge tracks past the PID gate is routed by its
    charges and by the system cuts: it fills unlike-sign histograms exactly
    when the two signs differ, like-sign/positive ones exactly when both
    are positive, like-sign/negative ones exactly when both are negative;
    the raw and [pions/no-selection] families are filled in every case, the
    [cut] and [pions/selected] families exactly when the system passes
    [systemPassCuts]; the event makes 7 fills when the system fails the
    cuts, 22 when it passes untagged and 34 when it passes with a tag. *)
Theorem pair_routing_by_charge (self : upcRhoAnalysis)
    (shuffle : Z -> list nat -> list nat) (Eta : PxPyPzMVector.t -> R)
    (seed : Z) (eventTags : ZdcTags) (t0 t1 : Track.t)
    (vec0 vec1 : PxPyPzMVector.t) :
  Track.sign t0 = 1%Z \/ Track.sign t0 = (-1)%Z ->
  Track.sign t1 = 1%Z \/ Track.sign t1 = (-1)%Z ->
  Permutation [0%nat; 1%nat] (shuffle seed [0%nat; 1%nat]) ->
  let fills :=
    fillsOf (processRecoSystem self shuffle Eta seed
               (pairCandidate eventTags t0 t1 vec0 vec1)) in
  let passes := systemPassCuts self (reconstructSystem [vec0; vec1]) in
  let tagged := OnOn eventTags || XnOn eventTags
                || OnXn eventTags || XnXn eventTags in
  fillsWith "/unlike-sign/" fills
  = negb (Track.sign t0 =? Track.sign t1)%Z
  /\ fillsWith "/like-sign/positive/" fills
     = (Track.sign t0 =? 1)%Z && (Track.sign t1 =? 1)%Z
  /\ fillsWith "/like-sign/negative/" fills
     = (Track.sign t0 =? -1)%Z && (Track.sign t1 =? -1)%Z
  /\ fillsWith "/raw/" fills = true
  /\ fillsWith "pions/no-selection/" fills = true
  /\ fillsWith "/cut/" fills = passes
  /\ fillsWith "pions/selected/" fills = passes
  /\ List.length fills
     = (if passes then if tagged then 34 else 22 else 7)%nat.
Proof.
  intros Hs0 Hs1 Hperm.
  pair_cases Hs0 Hs1 Hperm eventTags;
    destruct (systemPassCuts self (reconstructSystem [vec0; vec1]));
    (destruct oo; [| destruct xo; [| destruct ox; [| destruct xx]]]);
    lazy; repeat split; reflexivity.
Qed.

Lemma pair_routing_by_charge_witness :
  let t0 := sampleTrack 1 1 0 0 0 in
  let t1 := sampleTrack (-1) 0 1 0 0 in
  let vec0 := samplePion 1 0 0 in
  let vec1 := samplePion 0 1 0 in
  let eventTags := eventTagging defaults (sampleCollision 5 5 (-1) 0) in
  let fills :=
    fillsOf (processRecoSystem defaults (fun _ indices => rev indices)
               (fun _ => 0) 0 (pairCandidate eventTags t0 t1 vec0 vec1)) in
  let passes := systemPassCuts defaults (reconstructSystem [vec0; vec1]) in
  let tagged := OnOn eventTags || XnOn eventTags
                || OnXn eventTags || XnXn eventTags in
  fillsWith "/unlike-sign/" fills
  = negb (Track.sign t0 =? Track.sign t1)%Z
  /\ fillsWith "/like-sign/positive/" fills
     = (Track.sign t0 =? 1)%Z && (Track.sign t1 =? 1)%Z
  /\ fillsWith "/like-sign/negative/" fills
     = (Track.sign t0 =? -1)%Z && (Track.sign t1 =? -1)%Z
  /\ fillsWith "/raw/" fills = true
  /\ fillsWith "pions/no-selection/" fills = true
  /\ fillsWith "/cut/" fills = passes
  /\ fillsWith "pions/selected/" fills = passes
  /\ List.length fills
     = (if passes then if tagged then 34 else 22 else 7)%nat.
Proof.
  cbv zeta.
  apply (pair_routing_by_charge defaults (fun _ indices => rev indices)
           (fun _ => 0) 0%Z
           (eventTagging defaults (sampleCollision 5 5 (-1) 0))
           (sampleTrack 1 1 0 0 0) (sampleTrack (-1) 0 1 0 0)
           (samplePion 1 0 0) (samplePion 0 1 0)).
  - left. reflexivity.
  - right. reflexivity.
  - apply perm_swap.
Defined.

(** X16.  For a pair of unit-charge tracks the neutron-class families are
    filled only when the system passes the cuts, and then along the
    [else if] chain: 0n0n when its tag is set, Xn0n when its tag is set and
    0n0n's is not, and so on down the chain, the [no-selection] family in
    every case.  With the tags [processReco] computes from the collision,
    which exclude one another, each family is filled exactly when the
    system passes the cuts and its tag is set. *)
Theorem pair_routing_by_tag (self : upcRhoAnalysis)
    (shuffle : Z -> list nat -> list nat) (Eta : PxPyPzMVector.t -> R)
    (seed : Z) (eventTags : ZdcTags) (t0 t1 : Track.t)
    (vec0 vec1 : PxPyPzMVector.t) :
  Track.sign t0 = 1%Z \/ Track.sign t0 = (-1)%Z ->
  Track.sign t1 = 1%Z \/ Track.sign t1 = (-1)%Z ->
  Permutation [0%nat; 1%nat] (shuffle seed [0%nat; 1%nat]) ->
  let fills :=
    fillsOf (processRecoSystem self shuffle Eta seed
               (pairCandidate eventTags t0 t1 vec0 vec1)) in
  let passes := systemPassCuts self (reconstructSystem [vec0; vec1]) in
  (fillsWith "/cut/no-selection/" fills = passes
   /\ fillsWith "/cut/0n0n/" fills = passes && OnOn eventTags
   /\ fillsWith "/cut/Xn0n/" fills
      = passes && negb (OnOn eventTags) && XnOn eventTags
   /\ fillsWith "/cut/0nXn/" fills
      = passes && negb (OnOn eventTags) && negb (XnOn eventTags)
        && OnXn eventTags
   /\ fillsWith "/cut/XnXn/" fills
      = passes && negb (OnOn eventTags) && negb (XnOn eventTags)
        && negb (OnXn eventTags) && XnXn eventTags)
  /\ (forall collision : Collision.t,
        eventTags = eventTagging self collision ->
        fillsWith "/cut/0n0n/" fills = passes && OnOn eventTags
        /\ fillsWith "/cut/Xn0n/" fills = passes && XnOn eventTags
        /\ fillsWith "/cut/0nXn/" fills = passes && OnXn eventTags
        /\ fillsWith "/cut/XnXn/" fills = passes && XnXn eventTags).
Proof.
  intros Hs0 Hs1 Hperm.
  assert (Hexcl : forall collision : Collision.t,
            eventTags = eventTagging self collision ->
            (tagCount eventTags <= 1)%nat)
    by (intros collision ->; apply tagCount_le_1).
  unfold tagCount in Hexcl.
  pair_cases Hs0 Hs1 Hperm eventTags;
    destruct (systemPassCuts self (reconstructSystem [vec0; vec1]));
    (split;
     [ (destruct oo; [| destruct xo; [| destruct ox; [| destruct xx]]]);
       lazy; repeat split; reflexivity
     | intros collision Heq; specialize (Hexcl collision Heq);
       destruct oo, xo, ox, xx; cbn [Nat.b2n Nat.add] in Hexcl;
       first [ exfalso; lia | lazy; repeat split; reflexivity ] ]).
Qed.

Lemma pair_routing_by_tag_witness :
  let t0 := sampleTrack 1 1 0 0 0 in
  let t1 := sampleTrack (-1) 0 1 0 0 in
  let vec0 := samplePion 1 0 0 in
  let vec1 := samplePion 0 1 0 in
  let eventTags := eventTagging defaults (sampleCollision 5 0.5 (-1) 0) in
  let fills :=
    fillsOf (processRecoSystem defaults (fun _ indices => rev indices)
               (fun _ => 0) 0 (pairCandidate eventTags t0 t1 vec0 vec1)) in
  let passes := systemPassCuts defaults (reconstructSystem [vec0; vec1]) in
  fillsWith "/cut/0n0n/" fills = passes && OnOn eventTags
  /\ fillsWith "/cut/Xn0n/" fills = passes && XnOn eventTags
  /\ fillsWith "/cut/0nXn/" fills = passes && OnXn eventTags
  /\ fillsWith "/cut/XnXn/" fills = passes && XnXn eventTags.
Proof.
  cbv zeta.
  exact (proj2 (pair_routing_by_tag defaults (fun _ indices => rev indices)
                  (fun _ => 0) 0%Z
                  (eventTagging defaults (sampleCollision 5 0.5 (-1) 0))
                  (sampleTrack 1 1 0 0 0) (sampleTrack (-1) 0 1 0 0)
                  (samplePion 1 0 0) (samplePion 0 1 0)
                  (or_introl eq_refl) (or_intror eq_refl)
                  (perm_swap 1%nat 0%nat []))
               (sampleCollision 5 0.5 (-1) 0) eq_refl).
Defined.

Local Close Scope string_scope.

(** ** The fills of a whole event *)

Lemma processRecoSelection_fills (self : upcRhoAnalysis)
    (eta : R -> R -> R -> R) (mass : R) (collision : Collision.t)
    (tracks : list Track.t) :
  let kept := filter (passesAllStages self eta) tracks in
  fillsOf (processRecoSelection self eta mass collision tracks)
  = collisionFills collision
    ++ (if collisionPassesCuts self collision
        then flat_map (trackFills self eta) tracks
             ++ [("QC/tracks/cut/hRemainingTracks"%string,
                  [IZR (Z.of_nat (List.length kept))])]
             ++ pairPidFills kept
             ++ (if tracksPassPiPID self kept
                 then [(hSelectionCounter, [6; 2])] else [])
        else []).
Proof.
  cbv zeta. unfold fillsOf, processRecoSelection.
  repeat (rewrite runState_bind, runState_fill).
  destruct (collisionPassesCuts self collision); cbn [negb];
    [|reflexivity].
  rewrite runState_bind, trackLoop_run.
  rewrite runState_bind, runState_fill.
  unfold selectMore at 1 2. cbn [cutTracks trackCounter cutTracks4Vecs app].
  set (kept := filter (passesAllStages self eta) tracks).
  rewrite runState_bind.
  destruct kept as [|t0 [|t1 [|t2 rest]]];
    repeat (rewrite runState_bind, runState_fill);
    destruct (tracksPassPiPID self _); cbn [negb];
    unfold registry_fill;
    cbn [bind ret Monad_state runState snd pairPidFills app List.length
         get put MonadState_state];
    rewrite <- ?app_assoc; cbn [app]; reflexivity.
Qed.

Lemma fillsOnly_ret {A : Type} (p : string -> bool) (a : A) :
  FillsOnly p (ret a : state HistogramRegistry A).
Proof. split; [apply appends_ret | reflexivity]. Qed.

Lemma fillsOnly_fill (p : string -> bool) (name : string)
    (values : list R) :
  p name = true -> FillsOnly p (registry_fill name values).
Proof.
  intros Hp. split; [apply appends_fill|].
  rewrite fillsOf_fill. cbn [forallb fst]. now rewrite Hp.
Qed.

Lemma fillsOnly_bind {A B : Type} (p : string -> bool)
    (c : state HistogramRegistry A) (f : A -> state HistogramRegistry B) :
  FillsOnly p c -> (forall a, FillsOnly p (f a)) -> FillsOnly p (bind c f).
Proof.
  intros [Hc Hpc] Hf. split.
  - apply appends_bind; [exact Hc | intros a; apply Hf].
  - rewrite fillsOf_bind; [| exact Hc | intros a; apply Hf].
    rewrite forallb_app. apply andb_true_intro.
    split; [exact Hpc | apply Hf].
Qed.

(** One step along a computation that fills past the gate. *)
Ltac fills_only_step :=
  lazymatch goal with
  | |- FillsOnly _ (registry_fill _ _) => apply fillsOnly_fill; reflexivity
  | |- FillsOnly _ (ret _) => apply fillsOnly_ret
  | |- FillsOnly _ (bind _ _) => apply fillsOnly_bind; [| intros ?]
  | |- FillsOnly _ (if ?b then _ else _) => destruct b
  | |- FillsOnly _ (match ?x with _ => _ end) => destruct x
  end.

Lemma fillsOnly_processRecoSystem (self : upcRhoAnalysis)
    (shuffle : Z -> list nat -> list nat) (Eta : PxPyPzMVector.t -> R)
    (seed : Z) (candidate : Candidate) :
  FillsOnly pastGate (processRecoSystem self shuffle Eta seed candidate).
Proof.
  unfold processRecoSystem. cbv zeta.
  generalize (double_to_int
                (tracksTotalCharge (cutTracks (selected candidate)))).
  intros totalCharge.
  unfold fillPions, fillRaw, fillTagged, fillCut, fillMultiPion. cbv zeta.
  repeat fills_only_step.
Qed.

Lemma processReco_fills (self : upcRhoAnalysis)
    (eta : R -> R -> R -> R) (mass : R)
    (shuffle : Z -> list nat -> list nat) (Eta : PxPyPzMVector.t -> R)
    (seed : Z) (collision : Collision.t) (tracks : list Track.t) :
  fillsOf (processReco self eta mass shuffle Eta seed collision tracks)
  = fillsOf (processRecoSelection self eta mass collision tracks)
    ++ match fst (runState (processRecoSelection self eta mass
                                                 collision tracks) []) with
       | Some candidate =>
           fillsOf (processRecoSystem self shuffle Eta seed candidate)
       | None => []
       end.
Proof.
  unfold processReco. rewrite fillsOf_bind.
  - f_equal.
    match goal with |- context [match ?x with _ => _ end] => destruct x end;
      reflexivity.
  - apply appends_processRecoSelection.
  - intros [candidate|]; [apply appends_processRecoSystem|apply appends_ret].
Qed.

(** X17.  When the collision fails [collisionPassesCuts], [processReco]
    makes the eleven collision QC fills and nothing else: no track is
    looked at and the selection counter is not touched. *)
Theorem processReco_rejected_collision (self : upcRhoAnalysis)
    (eta : R -> R -> R -> R) (MassPionCharged : R)
    (shuffle : Z -> list nat -> list nat) (Eta : PxPyPzMVector.t -> R)
    (seed : Z) (collision : Collision.t) (tracks : list Track.t) :
  collisionPassesCuts self collision = false ->
  let fills := fillsOf (processReco self eta MassPionCharged shuffle Eta
                                    seed collision tracks) in
  fills = collisionFills collision
  /\ List.length fills = 11%nat
  /\ selectionCounterFills fills = 0%nat.
Proof.
  intros Hrej. cbv zeta.
  rewrite processReco_fills, processRecoSelection_fills.
  rewrite (processRecoSelection_outcome self eta MassPionCharged
             collision tracks []).
  cbv zeta. rewrite Hrej. cbn [andb]. rewrite !app_nil_r.
  repeat split; reflexivity.
Qed.

Lemma collisionPassesCuts_far :
  collisionPassesCuts defaults farCollision = false.
Proof.
  unfold collisionPassesCuts; simpl.
  rewrite Rabs_pos_eq by lra.
  destruct (gtb_reflect 11 10.0); [reflexivity | lra].
Qed.

Lemma processReco_rejected_collision_witness :
  let fills := fillsOf (processReco defaults pseudorapidity 0.13957
                          (fun _ indices => indices) (fun _ => 0) 0
                          farCollision [sampleTrack 1 1 0 0 0]) in
  fills = collisionFills farCollision
  /\ List.length fills = 11%nat
  /\ selectionCounterFills fills = 0%nat.
Proof.
  cbv zeta.
  apply (processReco_rejected_collision defaults pseudorapidity 0.13957
           (fun _ indices => indices) (fun _ => 0) 0%Z
           farCollision [sampleTrack 1 1 0 0 0]).
  exact collisionPassesCuts_far.
Defined.

Lemma pastGate_not_counter (name : string) :
  pastGate name = true -> String.eqb name hSelectionCounter = false.
Proof.
  intros Hp. destruct (String.eqb_spec name hSelectionCounter) as [-> | _];
    [discriminate Hp | reflexivity].
Qed.

Lemma binCount_pastGate (k : Z) (registry : HistogramRegistry) :
  forallb (fun f => pastGate (fst f)) registry = true ->
  binCount k registry = 0%nat.
Proof.
  unfold binCount. induction registry as [|f l IH]; [reflexivity|].
  cbn [forallb filter]. intros H. apply andb_prop in H as [Hf Hl].
  rewrite (pastGate_not_counter _ Hf). cbn [andb]. now apply IH.
Qed.

Lemma reachStage_beyond (self : upcRhoAnalysis) (eta : R -> R -> R -> R)
    (k : nat) (tracks : list Track.t) :
  (5 < k)%nat -> reachStage self eta k tracks = 0%nat.
Proof.
  intros Hk. unfold reachStage.
  induction tracks as [|track rest IH]; [reflexivity|]. cbn [filter].
  pose proof (stagesPassed_le (stages self eta) track) as Hle.
  change (List.length (stages self eta)) with 5%nat in Hle.
  destruct (Nat.leb_spec k (stagesPassed (stages self eta) track));
    [lia | exact IH].
Qed.

Lemma trackFills_before_gate (self : upcRhoAnalysis)
    (eta : R -> R -> R -> R) (tracks : list Track.t) :
  forallb (fun f => negb (pastGate (fst f)))
          (flat_map (trackFills self eta) tracks) = true.
Proof.
  induction tracks as [|track rest IH]; [reflexivity|].
  cbn [flat_map]. rewrite forallb_app.
  apply andb_true_intro; split; [|exact IH].
  unfold trackFills. rewrite !forallb_app.
  apply andb_true_intro; split; [reflexivity|].
  apply andb_true_intro; split.
  - unfold counterFills. generalize 1%nat.
    induction (stagesPassed (stages self eta) track) as [|n IHn];
      intros a; [reflexivity|].
    cbn [seq map forallb fst]. now rewrite IHn.
  - destruct (passesAllStages self eta track); reflexivity.
Qed.

(** X18.  Over a whole event the selection counter's bin 6 is filled once,
    with weight 2, exactly when the collision passes its cuts and the
    selected tracks pass the joint PID cut, whatever their number; when the
    event stops at one of these two gates, no histogram under [system/] or
    [pions/] is filled. *)
Theorem processReco_pid_gate (self : upcRhoAnalysis)
    (eta : R -> R -> R -> R) (MassPionCharged : R)
    (shuffle : Z -> list nat -> list nat) (Eta : PxPyPzMVector.t -> R)
    (seed : Z) (collision : Collision.t) (tracks : list Track.t) :
  let kept :=
    filter (fun track => fst (runState (trackPassesCuts self eta track) []))
           tracks in
  let gate := collisionPassesCuts self collision
              && tracksPassPiPID self kept in
  let fills := fillsOf (processReco self eta MassPionCharged shuffle Eta
                                    seed collision tracks) in
  binCount 6 fills = (if gate then 1 else 0)%nat
  /\ (gate = true -> In (hSelectionCounter, [6; 2]) fills)
  /\ (gate = false ->
      forallb (fun f => negb (pastGate (fst f))) fills = true).
Proof.
  cbv zeta. rewrite filter_passes.
  rewrite processReco_fills, processRecoSelection_fills.
  rewrite (processRecoSelection_outcome self eta MassPionCharged
             collision tracks []).
  cbv zeta.
  set (kept := filter (passesAllStages self eta) tracks).
  assert (Hpair : binCount 6 (pairPidFills kept) = 0%nat
                  /\ forallb (fun f => negb (pastGate (fst f)))
                             (pairPidFills kept) = true)
    by (destruct kept as [|t0 [|t1 [|t2 rest]]]; split; reflexivity).
  destruct Hpair as [Hpair1 Hpair2].
  assert (Hloop : binCount 6 (flat_map (trackFills self eta) tracks)
                  = 0%nat).
  { etransitivity; [exact (binCount_flat_map self eta 6 tracks)|].
    apply reachStage_beyond. lia. }
  assert (H66 : Req_bool 6 (IZR 6) = true) by apply (Req_bool_IZR 6 6).
  destruct (collisionPassesCuts self collision); cbn [andb].
  - destruct (tracksPassPiPID self kept).
    + split; [|split; [intros _ | discriminate]].
      * rewrite !binCount_app, Hloop, Hpair1.
        rewrite (binCount_pastGate 6
                   (fillsOf (processRecoSystem self shuffle Eta seed _)))
          by apply fillsOnly_processRecoSystem.
        unfold binCount. cbn [filter fst snd]. rewrite H66.
        reflexivity.
      * rewrite !in_app_iff. left. right. right. right. right.
        now left.
    + split; [|split; [discriminate | intros _]].
      * rewrite !binCount_app, Hloop, Hpair1. reflexivity.
      * rewrite !forallb_app.
        repeat (apply andb_true_intro; split);
          first [ reflexivity | apply trackFills_before_gate
                | exact Hpair2 ].
  - split; [|split; [discriminate | intros _]]; reflexivity.
Qed.

(** ** The system cuts *)

(** X19.  [systemPassCuts] accepts a system exactly when its mass lies in
    the closed window between the two mass cuts, its transverse momentum
    does not exceed the cut and the absolute value of its rapidity does not
    exceed the cut; an empty mass window, a negative transverse-momentum
    cut or a negative rapidity cut rejects every system. *)
Theorem systemPassCuts_window (self : upcRhoAnalysis)
    (system : PxPyPzMVector.t) :
  (systemPassCuts self system = true <->
     systemMassMinCut self <= PxPyPzMVector.M system <= systemMassMaxCut self
     /\ PxPyPzMVector.Pt system <= systemPtCut self
     /\ Rabs (PxPyPzMVector.Rapidity system) <= systemYCut self)
  /\ (systemMassMaxCut self < systemMassMinCut self ->
      systemPassCuts self system = false)
  /\ (systemPtCut self < 0 -> systemPassCuts self system = false)
  /\ (systemYCut self < 0 -> systemPassCuts self system = false).
Proof.
  pose proof (sqrt_pos (PxPyPzMVector.fX system * PxPyPzMVector.fX system
                        + PxPyPzMVector.fY system * PxPyPzMVector.fY system))
    as Hpt.
  fold (PxPyPzMVector.Pt system) in Hpt.
  pose proof (Rabs_pos (PxPyPzMVector.Rapidity system)) as Hy.
  unfold systemPassCuts.
  destruct (ltb_reflect (PxPyPzMVector.M system) (systemMassMinCut self));
    destruct (gtb_reflect (PxPyPzMVector.M system) (systemMassMaxCut self));
    destruct (gtb_reflect (PxPyPzMVector.Pt system) (systemPtCut self));
    destruct (gtb_reflect (Rabs (PxPyPzMVector.Rapidity system))
                          (systemYCut self));
    simpl; repeat split; intros; try reflexivity; try discriminate; lra.
Qed.

(** * Properties of the V0 selections of [myAnalysis] *)

Module MyAnalysisFacts.
Import MyAnalysis.

Lemma AcceptEvent_run (self : myAnalysis) (c : Collision.t)
    (registry : HistogramRegistry) :
  let n := eventStagesPassed (eventStages self) c in
  runState (AcceptEvent self c) registry
  = (Nat.eqb n 7, registry ++ eventFills n).
Proof.
  cbv zeta. unfold AcceptEvent, eventStages, eventStagesPassed, eventFills.
  unfold Double.leb, Double.gtb.
  repeat match goal with
  | |- context [?a && negb ?b] =>
      replace (a && negb b) with (negb (negb a || b))
        by (destruct a, b; reflexivity)
  end.
  replace (iscutzvertex self
           && (cutzvertex self <? Rabs (Collision.posZ c)))
    with (negb (negb (iscutzvertex self)
                || negb (cutzvertex self <? Rabs (Collision.posZ c))))
    by (destruct (iscutzvertex self),
                 (cutzvertex self <? Rabs (Collision.posZ c)); reflexivity).
  repeat match goal with
  | |- context [if negb ?b then _ else _] =>
      destruct b; cbn [negb];
      [| cbn [firstn]; simpl;
         rewrite <- ?app_assoc, ?app_nil_r; reflexivity]
  end.
  simpl. rewrite <- !app_assoc. reflexivity.
Qed.

Lemma eventStagesPassed_le (l : list (Collision.t -> bool))
    (c : Collision.t) :
  (eventStagesPassed l c <= List.length l)%nat.
Proof. induction l as [|s l IH]; simpl; [lia|]. destruct (s c); lia. Qed.

Lemma eventStagesPassed_prefix (l : list (Collision.t -> bool))
    (c : Collision.t) :
  Forall (fun stage => stage c = true) (firstn (eventStagesPassed l c) l)
  /\ ((eventStagesPassed l c < List.length l)%nat ->
      exists stage, nth_error l (eventStagesPassed l c) = Some stage
                    /\ stage c = false).
Proof.
  induction l as [|s l [IH1 IH2]]; simpl.
  - split; [constructor | lia].
  - destruct (s c) eqn:Hs; simpl.
    + split; [now constructor|]. intros H. apply IH2. lia.
    + split; [constructor|]. intros _. now exists s.
Qed.

(** X20.  [AcceptEvent] tests its seven requirements in the order sel8,
    TVX trigger, z vertex, time-frame border, ITS read-out-frame border,
    TOF-matched vertex, good z vertex, a requirement that is switched off
    counting as met, and stops at the first one missed: it fills [hNEvents]
    at 1.5, 2.5, ... once per requirement met before that, and accepts the
    event exactly when all seven are met.  Under the default configuration
    only the last two are switched on, so the first five fills are always
    made. *)
Theorem AcceptEvent_cut_flow (self : myAnalysis) (c : Collision.t)
    (registry : HistogramRegistry) :
  let n := eventStagesPassed (eventStages self) c in
  let result := runState (AcceptEvent self c) registry in
  (n <= 7)%nat
  /\ Forall (fun stage => stage c = true) (firstn n (eventStages self))
  /\ ((n < 7)%nat ->
      exists stage, nth_error (eventStages self) n = Some stage
                    /\ stage c = false)
  /\ snd result = registry ++ eventFills n
  /\ List.length (eventFills n) = n
  /\ (fst result = true <-> n = 7%nat)
  /\ (5 <= eventStagesPassed (eventStages defaults) c)%nat
  /\ (fst (runState (AcceptEvent defaults c) registry) = true
      <-> Collision.selection_bit c kIsVertexTOFmatched = true
          /\ Collision.selection_bit c kIsGoodZvtxFT0vsPV = true).
Proof.
  cbv zeta. rewrite !AcceptEvent_run. cbv zeta.
  pose proof (eventStagesPassed_le (eventStages self) c) as Hle.
  pose proof (eventStagesPassed_prefix (eventStages self) c) as [Hpre Hfail].
  change (List.length (eventStages self)) with 7%nat in *.
  set (n := eventStagesPassed (eventStages self) c) in *.
  cbn [fst snd].
  split; [exact Hle|]. split; [exact Hpre|]. split; [exact Hfail|].
  split; [reflexivity|]. split.
  { unfold eventFills. rewrite length_firstn. cbn [List.length]. lia. }
  split; [apply Nat.eqb_eq|].
  unfold eventStages, eventStagesPassed, defaults; cbn.
  destruct (Collision.selection_bit c kIsVertexTOFmatched),
           (Collision.selection_bit c kIsGoodZvtxFT0vsPV);
    cbn; repeat split; intros; try lia; try easy; intuition easy.
Qed.

(** Decide every test of a V0 selection, block by block. *)
Ltac selection_blocks :=
  repeat match goal with
  | |- context [if ?b then false else _] =>
      lazymatch b with
      | true => fail
      | false => fail
      | _ => destruct b eqn:?
      end
  end.

(** X21.  When a TOF signal is not required, [passedLambdaSelection] and
    [passedAntiLambdaSelection] take the same decision on every V0: the two
    selections differ only in the TOF n-sigma values they test. *)
Theorem lambda_antilambda_agree (self : myAnalysis)
    (RapidityXYZM : R -> R -> R -> R -> R)
    (v0 : V0.t) (ptrack ntrack : Track.t) :
  requireTOF self = false ->
  passedLambdaSelection self RapidityXYZM v0 ptrack ntrack
  = passedAntiLambdaSelection self RapidityXYZM v0 ptrack ntrack.
Proof.
  intros Htof. unfold passedLambdaSelection, passedAntiLambdaSelection.
  rewrite Htof. cbn [andb]. reflexivity.
Qed.

Lemma lambda_antilambda_agree_witness :
  passedLambdaSelection defaults (fun _ _ _ _ => 0)
                        sampleV0 sampleTrack sampleTrack
  = passedAntiLambdaSelection defaults (fun _ _ _ _ => 0)
                              sampleV0 sampleTrack sampleTrack.
Proof.
  apply (lambda_antilambda_agree defaults (fun _ _ _ _ => 0)
                                 sampleV0 sampleTrack sampleTrack).
  reflexivity.
Defined.

(** X22.  A V0 accepted by [passedLambdaSelection] has a radius and a
    cosine of pointing angle not below their minima, both daughters within
    the pseudorapidity bound, a daughter DCA not above its maximum, a
    rapidity inside the window, and an absolute [dcapostopv] not below
    either of the two DCA-to-PV thresholds: both thresholds are applied to
    [dcapostopv], and the decision does not change with the V0's
    [dcanegtopv]. *)
Theorem passedLambdaSelection_necessary (self : myAnalysis)
    (RapidityXYZM : R -> R -> R -> R -> R)
    (v0 : V0.t) (ptrack ntrack : Track.t) :
  (passedLambdaSelection self RapidityXYZM v0 ptrack ntrack = true ->
   minimumV0Radius self <= V0.v0radius v0
   /\ v0cospa self <= V0.v0cosPA v0
   /\ Rabs (Track.eta ptrack) <= etaMax self
   /\ Rabs (Track.eta ntrack) <= etaMax self
   /\ dcanegtopv self <= Rabs (V0.dcapostopv v0)
   /\ dcapostopv self <= Rabs (V0.dcapostopv v0)
   /\ V0.dcaV0daughters v0 <= dcav0dau self
   /\ yMin self
      <= RapidityXYZM (V0.px v0) (V0.py v0) (V0.pz v0) 1.115683
      <= yMax self)
  /\ (forall d : R,
        passedLambdaSelection self RapidityXYZM (withDcaNegToPV d v0)
                              ptrack ntrack
        = passedLambdaSelection self RapidityXYZM v0 ptrack ntrack)
  /\ (forall d : R,
        passedAntiLambdaSelection self RapidityXYZM (withDcaNegToPV d v0)
                                  ptrack ntrack
        = passedAntiLambdaSelection self RapidityXYZM v0 ptrack ntrack).
Proof.
  split; [|split; intros d; reflexivity].
  unfold passedLambdaSelection. cbv zeta.
  selection_blocks; try discriminate. intros _.
  repeat match goal with
  | H : _ || _ = false |- _ => apply orb_false_elim in H; destruct H
  | H : (_ <? _) = false |- _ => apply ltb_false in H
  | H : (_ >? _) = false |- _ => apply ltb_false in H
  end.
  repeat split; assumption.
Qed.

End MyAnalysisFacts.

(** ** Histogram names *)

(** The names built from path components are the names the source
    writes. *)
Lemma histName_examples :
  histName ["system"; "2pi"; "cut"; "0n0n"; "like-sign/positive";
            "hPhiRandomVsM"]%string
  = "system/2pi/cut/0n0n/like-sign/positive/hPhiRandomVsM"%string
  /\ histName ["system"; "2pi"; "raw"; "unlike-sign"; "hPtVsM"]%string
     = "system/2pi/raw/unlike-sign/hPtVsM"%string
  /\ histName ["pions"; "selected"; "like-sign"; "hEta"]%string
     = "pions/selected/like-sign/hEta"%string
  /\ histName ["system"; "6pi"; "hY"]%string = "system/6pi/hY"%string.
Proof. repeat split; reflexivity. Qed.
